(** * devops-toolkit: the project bootstrapper [setup.py]

    A shallow embedding of [setup.py] and the properties its specification
    states about it.

    - Python strings are lists of Unicode code points.  The ASCII range of
      every character table is written out; the part of the Unicode
      database beyond ASCII is the interface [Unicode].
    - The operating system (the search path lookup, the shell, the file
      system) is the interface [OS]; the script is a state-passing program
      over it that records every side effect in a trace and ends by
      returning, by [sys.exit] or by an uncaught exception.
    - A command that fails is an exit code; only [subprocess.run] with
      [check] raises.  Printing, reading, writing and creating a directory
      are taken to succeed. *)

From Stdlib Require Import List String Ascii NArith ZArith Bool Arith Lia.
Import ListNotations.

Set Implicit Arguments.

(** ** Python strings *)

Definition char : Type := N.
Definition str : Type := list char.

(** A string literal of the source. *)
Definition lit (s : string) : str := map N_of_ascii (list_ascii_of_string s).

(** The double quote. *)
Definition dq : char := 34%N.

Definition str_eqb (a b : str) : bool :=
  if list_eq_dec N.eq_dec a b then true else false.

(** [p in parts] on a list of strings. *)
Definition mem (p : str) (l : list str) : bool := existsb (str_eqb p) l.

(** The tables of the Unicode database beyond the ASCII range, and the one
    fact about them the development relies on: no white space character is
    alphanumeric. *)
Class Unicode : Type := {
  uni_space : char -> bool;
  uni_word : char -> bool;
  uni_digit : char -> option N;
  uni_lower : str -> str;
  uni_space_not_word : forall c, uni_space c = true -> uni_word c = false
}.

Definition is_ascii (c : char) : bool := (c <? 128)%N.

Definition in_range (lo hi c : N) : bool := ((lo <=? c) && (c <=? hi))%N.

(** [str.isspace] and the regex class [\s] on ASCII: tab, line feed,
    vertical tab, form feed, carriage return, the four separators
    0x1c..0x1f and the space. *)
Definition ascii_space (c : char) : bool :=
  in_range 9 13 c || in_range 28 31 c || (c =? 32)%N.

(** The regex class [\w] on ASCII: letters, digits and the underscore. *)
Definition ascii_word (c : char) : bool :=
  in_range 48 57 c || in_range 65 90 c || in_range 97 122 c || (c =? 95)%N.

Section Tables.
Context {U : Unicode}.

Definition is_space (c : char) : bool :=
  if is_ascii c then ascii_space c else uni_space c.

Definition is_word (c : char) : bool :=
  if is_ascii c then ascii_word c else uni_word c.

(** The decimal value of a character of the regex class [\d]. *)
Definition digit_value (c : char) : option N :=
  if is_ascii c then (if in_range 48 57 c then Some (c - 48)%N else None)
  else uni_digit c.

Definition is_digit (c : char) : bool :=
  match digit_value c with Some _ => true | None => false end.

(** [s.lstrip()], [s.rstrip()] and [s.strip()]. *)
Fixpoint lstrip (s : str) : str :=
  match s with
  | c :: s' => if is_space c then lstrip s' else s
  | [] => []
  end.

Definition rstrip (s : str) : str := rev (lstrip (rev s)).

Definition strip (s : str) : str := rstrip (lstrip s).

(** [s.lower()]: on a string of ASCII characters the capital letters are
    shifted; any other string goes through the Unicode algorithm. *)
Definition ascii_lower (c : char) : char :=
  if in_range 65 90 c then (c + 32)%N else c.

Definition lower (s : str) : str :=
  if forallb is_ascii s then map ascii_lower s else uni_lower s.
End Tables.

(** [s.startswith(w)], returning what follows the prefix. *)
Fixpoint strip_prefix (w s : str) : option str :=
  match w, s with
  | [], _ => Some s
  | a :: w', c :: s' => if (a =? c)%N then strip_prefix w' s' else None
  | _ :: _, [] => None
  end.

(** [s.replace(old, new)]: the occurrences of [old] are replaced from left
    to right without overlap; an empty [old] matches before every character
    and at the end. *)
Fixpoint replace_nonempty (old new s : str) (skip : nat) : str :=
  match s with
  | [] => []
  | c :: s' =>
      match skip with
      | S k => replace_nonempty old new s' k
      | O =>
          match strip_prefix old s with
          | Some _ => new ++ replace_nonempty old new s' (List.length old - 1)
          | None => c :: replace_nonempty old new s' 0
          end
      end
  end.

Definition replace (old new s : str) : str :=
  match old with
  | [] => new ++ flat_map (fun c => c :: new) s
  | _ :: _ => replace_nonempty old new s 0
  end.

(** [s.split(sep)] for a separator of one character. *)
Fixpoint split (sep : char) (s : str) : list str :=
  match s with
  | [] => [[]]
  | c :: s' =>
      if (c =? sep)%N then [] :: split sep s'
      else match split sep s' with
           | w :: ws => (c :: w) :: ws
           | [] => [[c]]
           end
  end.

(** [sep.join(l)]. *)
Fixpoint join (sep : str) (l : list str) : str :=
  match l with
  | [] => []
  | w :: ws =>
      match ws with
      | [] => w
      | _ :: _ => w ++ sep ++ join sep ws
      end
  end.

(** ** The platform *)

(** [platform.system()]; it fixes [os.pathsep] and [os.sep]. *)
Inductive system : Type := Darwin | Linux | Windows.

Definition pathsep (sys : system) : char :=
  match sys with Windows => 59%N | _ => 58%N end.

Definition sep (sys : system) : char :=
  match sys with Windows => 92%N | _ => 47%N end.

(** [os.path.expanduser] on a path that starts with [~/]: the tilde is
    replaced by the home directory of the user ([userhome], absent when it
    cannot be determined, in which case the path is returned as it is).
    On POSIX the trailing slashes of the home directory are dropped. *)
Fixpoint rstrip_slash_rev (r : str) : str :=
  match r with
  | c :: r' => if (c =? 47)%N then rstrip_slash_rev r' else r
  | [] => []
  end.

Definition expanduser (sys : system) (userhome : option str) (path : str) : str :=
  match userhome, path with
  | Some h, _ :: rest =>
      match sys with
      | Windows => h ++ rest
      | _ => rev (rstrip_slash_rev (rev h)) ++ rest
      end
  | _, _ => path
  end.

(** ** [_ensure_path], on the value of PATH *)

Definition priority : list str :=
  [lit "/opt/homebrew/bin"; lit "/opt/homebrew/sbin"].

Definition extra (sys : system) (userhome : option str) : list str :=
  [lit "/usr/local/bin"; expanduser sys userhome (lit "~/.npm-global/bin")].

(** The loop [for p in extra: if p not in parts: parts.append(p)]. *)
Fixpoint append_missing (ps parts : list str) : list str :=
  match ps with
  | [] => parts
  | p :: ps' =>
      append_missing ps' (if mem p parts then parts else parts ++ [p])
  end.

Definition ensure_path_value (sys : system) (userhome : option str)
    (current : str) : str :=
  let parts := split (pathsep sys) current in
  let parts := filter (fun p => negb (mem p priority)) parts in
  let parts := append_missing (extra sys userhome) parts in
  join [pathsep sys] (priority ++ parts).

(** ** Regular expressions: the backtracking matcher of [re]

    The constructs the patterns of [setup.py] use.  Every pattern of the
    script has exactly one capture group, which takes part in every match,
    so a match is reported as the text of group 1. *)

Inductive regex : Type :=
| Eps                          (* the empty pattern *)
| Chr (c : char)               (* a literal character *)
| Cls (p : char -> bool)       (* a character class *)
| Seq (r1 r2 : regex)          (* r1 r2 *)
| Star (r : regex)             (* r*  : greedy *)
| LazyStar (r : regex)         (* r*? : lazy *)
| Group (r : regex).           (* (r) : capture group 1 *)

(** r+ *)
Definition Plus (r : regex) : regex := Seq r (Star r).

(** The dot under [re.DOTALL]. *)
Definition Dot : regex := Cls (fun _ => true).

(** A literal word. *)
Definition Literal (w : str) : regex := fold_right (fun c r => Seq (Chr c) r) Eps w.

Section Backtracking.
Variable R : Type.

(** A matcher consumes a prefix of the input, updates the text of the
    group and hands both to its continuation; [None] makes the caller
    try its next alternative. *)
Definition cont : Type := str -> str -> option R.
Definition matcher : Type := str -> str -> cont -> option R.

(** One more iteration of a repeated body, refused when the body
    consumed nothing (the bodies of the patterns of the script always
    consume one character). *)
Definition iterate (body : matcher) (s g : str) (again : cont) : option R :=
  body s g (fun s' g' =>
    if List.length s' <? List.length s then again s' g' else None).

(** Greedy repetition: iterate first, leave the loop on failure. *)
Fixpoint star_loop (body : matcher) (k : cont) (fuel : nat) (s g : str)
    : option R :=
  match fuel with
  | O => k s g
  | S fuel' =>
      match iterate body s g (star_loop body k fuel') with
      | Some x => Some x
      | None => k s g
      end
  end.

(** Lazy repetition: leave the loop first, iterate on failure. *)
Fixpoint lazy_loop (body : matcher) (k : cont) (fuel : nat) (s g : str)
    : option R :=
  match k s g with
  | Some x => Some x
  | None =>
      match fuel with
      | O => None
      | S fuel' => iterate body s g (lazy_loop body k fuel')
      end
  end.

Fixpoint bt (r : regex) {struct r} : matcher :=
  match r with
  | Eps => fun s g k => k s g
  | Chr c => fun s g k =>
      match s with
      | x :: s' => if (x =? c)%N then k s' g else None
      | [] => None
      end
  | Cls p => fun s g k =>
      match s with
      | x :: s' => if p x then k s' g else None
      | [] => None
      end
  | Seq r1 r2 => fun s g k => bt r1 s g (fun s' g' => bt r2 s' g' k)
  | Star r1 => fun s g k => star_loop (bt r1) k (List.length s) s g
  | LazyStar r1 => fun s g k => lazy_loop (bt r1) k (List.length s) s g
  | Group r1 => fun s g k =>
      bt r1 s g (fun s' _ => k s' (firstn (List.length s - List.length s') s))
  end.
End Backtracking.

(** [re.match(r, s)]: a match that starts at the first character. *)
Definition re_match (r : regex) (s : str) : option str :=
  bt r s [] (fun _ g => Some g).

(** [re.search(r, s)]: the start positions are tried from left to right. *)
Fixpoint re_search (r : regex) (s : str) : option str :=
  match re_match r s with
  | Some g => Some g
  | None =>
      match s with
      | [] => None
      | _ :: s' => re_search r s'
      end
  end.

(** ** The patterns of the script *)

Section Patterns.
Context {U : Unicode}.

(** The class [[\w.]]. *)
Definition word_or_dot (c : char) : bool := is_word c || (c =? 46)%N.

(** [applicationIdentifier:.*?<key>:\s*([\w.]+)] under [re.DOTALL]. *)
Definition bundle_id_re (key : str) : regex :=
  Seq (Literal (lit "applicationIdentifier:"))
    (Seq (LazyStar Dot)
      (Seq (Literal (key ++ lit ":"))
        (Seq (Star (Cls is_space))
             (Group (Plus (Cls word_or_dot)))))).

(** [v(\d+)] *)
Definition node_version_re : regex :=
  Seq (Chr 118%N) (Group (Plus (Cls is_digit))).

(** The value of a run of decimal digits, which [int(digits)] returns
    when it accepts the run. *)
Definition int_of_digits (ds : str) : N :=
  fold_left (fun n c =>
    (10 * n + match digit_value c with Some v => v | None => 0 end)%N) ds 0%N.

(** The parsing step of [read_bundle_ids]: the two searches and the
    [strip] of each group. *)
Definition parse_bundle_ids (content : str) : option str * option str :=
  let ios_id :=
    match re_search (bundle_id_re (lit "iPhone")) content with
    | Some g => Some (strip g)
    | None => None
    end in
  let android_id :=
    match re_search (bundle_id_re (lit "Android")) content with
    | Some g => Some (strip g)
    | None => None
    end in
  (ios_id, android_id).
End Patterns.

(** ** The operating system and the effects of the script *)

(** The longest run of digits [int] converts: CPython's default
    [sys.int_info.default_max_str_digits]. *)
Definition int_max_str_digits : N := 4300.

(** What [subprocess.run] returns. *)
Record CompletedProcess : Type := {
  returncode : Z;
  stdout : str
}.

(** The side effects the script performs, in the order it performs them. *)
Inductive event : Type :=
| Print (text : str)
| Subprocess (cmd : str) (capture check : bool)
| Mkdir (path : str)
| WriteText (path content : str).

(** The exceptions the script can stop on: the [CalledProcessError] of a
    checked command, and the [ValueError] of [int] on a literal of too
    many digits. *)
Inductive exn : Type :=
| CalledProcessError (code : Z) (cmd : str)
| ValueError (literal : str).

(** How a call ends. *)
Inductive outcome (A : Type) : Type :=
| Return (a : A)
| SysExit (code : Z)
| Raised (e : exn).

Arguments Return {A} a.
Arguments SysExit {A} code.
Arguments Raised {A} e.

(** The environment the script runs in.  A world answers the queries of
    the script and moves on with every command and every write; the search
    path is handed to the lookups because the script changes it. *)
Class OS : Type := {
  World : Type;
  os_system : system;
  os_userhome : World -> option str;
  os_which : World -> option str -> str -> option str;
  os_subprocess : World -> option str -> str -> bool -> CompletedProcess * World;
  os_exists : World -> str -> bool;
  os_read_text : World -> str -> str;
  os_mkdir : World -> str -> World;
  os_write_text : World -> str -> str -> World
}.

Section Effects.
Context {O : OS}.

(** The process: the PATH variable of [os.environ] (absent when unset),
    the world, and the effects so far. *)
Record state : Type := {
  env_PATH : option str;
  world : World;
  trace : list event
}.

Definition M (A : Type) : Type := state -> outcome A * state.

Definition ret {A} (a : A) : M A := fun st => (Return a, st).

Definition bind {A B} (m : M A) (f : A -> M B) : M B :=
  fun st =>
    match m st with
    | (Return a, st') => f a st'
    | (SysExit c, st') => (SysExit c, st')
    | (Raised e, st') => (Raised e, st')
    end.

Definition emit (e : event) (st : state) : state :=
  {| env_PATH := env_PATH st; world := world st; trace := trace st ++ [e] |}.

Definition set_world (w : World) (st : state) : state :=
  {| env_PATH := env_PATH st; world := w; trace := trace st |}.

(** [print(text)] *)
Definition print (text : str) : M unit :=
  fun st => (Return tt, emit (Print text) st).

(** [sys.exit(code)] *)
Definition sys_exit {A} (code : Z) : M A := fun st => (SysExit code, st).

Definition raise {A} (e : exn) : M A := fun st => (Raised e, st).

(** The shell runs the command: the event is recorded, the world answers
    and moves on. *)
Definition shell (cmd : str) (capture check : bool)
    : M CompletedProcess :=
  fun st =>
    let answer := os_subprocess (world st) (env_PATH st) cmd capture in
    (Return (fst answer),
     set_world (snd answer) (emit (Subprocess cmd capture check) st)).

(** [shutil.which(name)] *)
Definition which (name : str) : M (option str) :=
  fun st => (Return (os_which (world st) (env_PATH st) name), st).

(** [path.exists()] *)
Definition path_exists (path : str) : M bool :=
  fun st => (Return (os_exists (world st) path), st).

(** [path.read_text(encoding="utf-8")] *)
Definition read_text (path : str) : M str :=
  fun st => (Return (os_read_text (world st) path), st).

(** [path.mkdir(parents=True, exist_ok=True)] *)
Definition mkdir (path : str) : M unit :=
  fun st => (Return tt, set_world (os_mkdir (world st) path) (emit (Mkdir path) st)).

(** [path.write_text(content, encoding="utf-8")] *)
Definition write_text (path content : str) : M unit :=
  fun st =>
    (Return tt,
     set_world (os_write_text (world st) path content)
               (emit (WriteText path content) st)).
End Effects.

Declare Scope py_scope.
Delimit Scope py_scope with py.
Notation "x <- m ;; k" := (bind m (fun x => k))
  (at level 61, m at next level, right associativity) : py_scope.
Notation "m ;; k" := (bind m (fun _ => k))
  (at level 61, right associativity) : py_scope.
Open Scope py_scope.

(** Truth of an optional string: [None] and the empty string are false. *)
Definition truthy (o : option str) : bool :=
  match o with
  | Some (_ :: _) => true
  | _ => false
  end.

(** How an f-string renders an optional string. *)
Definition fmt (o : option str) : str :=
  match o with
  | Some s => s
  | None => lit "None"
  end.

(** [o or default] *)
Definition or_else (o : option str) (default : str) : str :=
  match o with
  | Some (c :: s) => c :: s
  | _ => default
  end.

(** A string between double quotes. *)
Definition quoted (s : str) : str := [dq] ++ s ++ [dq].

(** [pathlib.Path] on the relative paths of the script: the components,
    joined by [os.sep] when rendered; the parent of a single component is
    the current directory. *)
Definition Path : Type := list str.

Definition path_str (sys : system) (p : Path) : str :=
  match p with
  | [] => lit "."
  | _ :: _ => join [sep sys] p
  end.

Definition path_parent (p : Path) : Path := removelast p.

Definition CI_SERVICE_ACCOUNT : str :=
  lit "ci-distribution@hcgamesfirebase.iam.gserviceaccount.com".

(** The line feed. *)
Definition nl : str := [10%N].

(** A text given line by line, every line ended by a line feed. *)
Definition text_of_lines (ls : list str) : str := flat_map (fun l => l ++ nl) ls.

(** ** The script *)

Section Script.
Context {U : Unicode} {O : OS}.

(** [subprocess.run(cmd, shell=True, capture_output=capture, check=check)]:
    with [check], a non-zero exit code raises [CalledProcessError]. *)
Definition subprocess_run (cmd : str) (capture check : bool)
    : M CompletedProcess :=
  result <- shell cmd capture check ;;
  if check && negb (returncode result =? 0)%Z
  then raise (CalledProcessError (returncode result) cmd)
  else ret result.

(** [run(cmd, capture, check)]; the result is Python's [None] or a
    string. *)
Definition run (cmd : str) (capture check : bool) : M (option str) :=
  if capture then
    result <- subprocess_run cmd true false ;;
    if check && negb (returncode result =? 0)%Z then ret None
    else ret (Some (strip (stdout result)))
  else
    _ <- subprocess_run cmd false check ;;
    ret None.

(** [os.environ.get] of PATH, the empty string when it is unset. *)
Definition getenv_PATH (st : state) : str :=
  match env_PATH st with Some p => p | None => [] end.

(** [_ensure_path()] *)
Definition _ensure_path : M unit :=
  fun st =>
    let current := getenv_PATH st in
    (Return tt,
     {| env_PATH :=
          Some (ensure_path_value os_system (os_userhome (world st)) current);
        world := world st;
        trace := trace st |}).

(** [command_exists(name)] *)
Definition command_exists (name : str) : M bool :=
  found <- which name ;;
  ret (match found with Some _ => true | None => false end).

(** [int(digits)] on a run of decimal digits: the value, or
    [ValueError] when the run is longer than the limit, leading zeros
    counted. *)
Definition py_int (digits : str) : M N :=
  if (N.of_nat (List.length digits) <=? int_max_str_digits)%N
  then ret (int_of_digits digits)
  else raise (ValueError digits).

(** [check_node_version()] *)
Definition check_node_version : M unit :=
  node <- which (lit "node") ;;
  if negb (truthy node) then ret tt
  else
    version_str <- run (lit "node --version") true false ;;
    if negb (truthy version_str) then ret tt
    else
      match re_match node_version_re (fmt version_str) with
      | None => ret tt
      | Some digits =>
          major <- py_int digits ;;
          if (20 <=? major)%N then ret tt
          else
            print (lit "Node.js " ++ fmt version_str
                   ++ lit " is too old for Firebase CLI (need >= v20).") ;;
            brew <- command_exists (lit "brew") ;;
            if brew then
              print (lit "Upgrading Node.js via Homebrew...") ;;
              run (lit "brew upgrade node || brew install node") false false ;;
              _ensure_path
            else
              print (lit "Error: Please upgrade Node.js to >= v20.") ;;
              sys_exit 1
      end.

(** [platform.system() == "Darwin"] *)
Definition is_darwin : bool :=
  match os_system with Darwin => true | _ => false end.

(** [check_prerequisites()] *)
Definition check_prerequisites : M unit :=
  check_node_version ;;
  firebase <- command_exists (lit "firebase") ;;
  (if negb firebase then
     npm <- command_exists (lit "npm") ;;
     if npm then
       print (lit "Installing Firebase CLI via npm...") ;;
       run (lit "npm install -g firebase-tools") false true ;;
       ret tt
     else
       brew <- (if is_darwin then command_exists (lit "brew") else ret false) ;;
       if brew then
         print (lit "Installing Firebase CLI via Homebrew...") ;;
         run (lit "brew install firebase-cli") false true ;;
         ret tt
       else
         print (lit "Error: Install Firebase CLI manually:") ;;
         print (lit "  npm install -g firebase-tools") ;;
         print (lit "  https://firebase.google.com/docs/cli") ;;
         sys_exit 1
   else ret tt) ;;
  result <- run (lit "firebase projects:list") true false ;;
  match result with
  | None =>
      print (lit "You need to log in to Firebase.") ;;
      run (lit "firebase login") false false ;;
      ret tt
  | Some _ => ret tt
  end.

Definition settings_path : Path :=
  [lit "ProjectSettings"; lit "ProjectSettings.asset"].

(** [read_bundle_ids()] *)
Definition read_bundle_ids : M (option str * option str) :=
  let path := path_str os_system settings_path in
  found <- path_exists path ;;
  if negb found then
    print (lit "Error: " ++ path
           ++ lit " not found. Run this from a Unity project root.") ;;
    sys_exit 1
  else
    content <- read_text path ;;
    let (ios_id, android_id) := parse_bundle_ids content in
    (if negb (truthy ios_id) || negb (truthy android_id) then
       print (lit "Warning: Could not parse all bundle IDs from " ++ path) ;;
       print (lit "  iOS: " ++ or_else ios_id (lit "NOT FOUND")) ;;
       print (lit "  Android: " ++ or_else android_id (lit "NOT FOUND"))
     else ret tt) ;;
    ret (ios_id, android_id).
End Script.

(** ** Provisioning and the generated files *)

Section Provisioning.
Context {U : Unicode} {O : OS}.

Definition create_project_cmd (game_name project_id : str) : str :=
  lit "firebase projects:create " ++ quoted project_id
  ++ lit " --display-name " ++ quoted game_name.

Definition register_ios_cmd (ios_bundle_id project_id : str) : str :=
  lit "firebase apps:create ios --bundle-id " ++ quoted ios_bundle_id
  ++ lit " --project " ++ quoted project_id.

Definition register_android_cmd (android_bundle_id project_id : str) : str :=
  lit "firebase apps:create android --package-name " ++ quoted android_bundle_id
  ++ lit " --project " ++ quoted project_id.

Definition settings_dir : Path := [lit "Assets"; lit "Settings"].

Definition download_ios_cmd (project_id : str) : str :=
  lit "firebase apps:sdkconfig ios --project " ++ quoted project_id
  ++ lit " --out "
  ++ quoted (path_str os_system (settings_dir ++ [lit "GoogleService-Info.plist"])).

Definition download_android_cmd (project_id : str) : str :=
  lit "firebase apps:sdkconfig android --project " ++ quoted project_id
  ++ lit " --out "
  ++ quoted (path_str os_system (settings_dir ++ [lit "google-services.json"])).

Definition grant_role_cmd (project_id : str) : str :=
  lit "gcloud projects add-iam-policy-binding " ++ project_id
  ++ lit " --member=" ++ quoted (lit "serviceAccount:" ++ CI_SERVICE_ACCOUNT)
  ++ lit " --role=" ++ quoted (lit "roles/firebaseappdistro.admin")
  ++ lit " --quiet".

(** [setup_firebase(game_name, project_id, ios_bundle_id, android_bundle_id)] *)
Definition setup_firebase (game_name project_id : str)
    (ios_bundle_id android_bundle_id : option str) : M unit :=
  print (nl ++ lit "Creating Firebase project: " ++ project_id ++ lit "...") ;;
  run (create_project_cmd game_name project_id) false false ;;
  (if truthy ios_bundle_id then
     print (lit "Registering iOS app (" ++ fmt ios_bundle_id ++ lit ")...") ;;
     run (register_ios_cmd (fmt ios_bundle_id) project_id) false false ;;
     ret tt
   else ret tt) ;;
  (if truthy android_bundle_id then
     print (lit "Registering Android app (" ++ fmt android_bundle_id ++ lit ")...") ;;
     run (register_android_cmd (fmt android_bundle_id) project_id) false false ;;
     ret tt
   else ret tt) ;;
  mkdir (path_str os_system settings_dir) ;;
  print (lit "Downloading GoogleService-Info.plist...") ;;
  run (download_ios_cmd project_id) false false ;;
  print (lit "Downloading google-services.json...") ;;
  run (download_android_cmd project_id) false false ;;
  print (lit "Adding CI service account to Firebase project...") ;;
  gcloud <- command_exists (lit "gcloud") ;;
  if gcloud then
    run (grant_role_cmd project_id) false false ;;
    ret tt
  else
    print (lit "Warning: gcloud not found. Add " ++ CI_SERVICE_ACCOUNT
           ++ lit " manually in Firebase Console with App Distribution Admin role.").

(** [write_file(path, content)] *)
Definition write_file (path : Path) (content : str) : M unit :=
  mkdir (path_str os_system (path_parent path)) ;;
  write_text (path_str os_system path) content ;;
  print (lit "  Created " ++ path_str os_system path).

Definition build_yml (game_name : str) : str :=
  text_of_lines [
    lit "name: " ++ game_name ++ lit " Build";
    [];
    lit "on:";
    lit "  workflow_dispatch:";
    lit "    inputs:";
    lit "      buildTarget:";
    lit "        description: " ++ [dq] ++ lit "Platform to build" ++ [dq];
    lit "        required: true";
    lit "        default: " ++ [dq] ++ lit "iOS" ++ [dq];
    lit "        type: choice";
    lit "        options:";
    lit "          - Android";
    lit "          - iOS";
    lit "          - Both";
    lit "      distribution:";
    lit "        description: " ++ [dq] ++ lit "Distribution target" ++ [dq];
    lit "        required: true";
    lit "        default: " ++ [dq] ++ lit "None" ++ [dq];
    lit "        type: choice";
    lit "        options:";
    lit "          - None";
    lit "          - TestFlight";
    lit "          - Firebase";
    lit "      scriptDefines:";
    lit "        description: " ++ [dq] ++ lit "Extra script defines (semicolon-separated, e.g. DEV_MODE;EXTRA_LOGGING)" ++ [dq];
    lit "        required: false";
    lit "        type: string";
    lit "        default: " ++ [dq] ++ [dq];
    [];
    lit "concurrency:";
    lit "  group: ${{ github.workflow }}-${{ github.ref }}";
    lit "  cancel-in-progress: true";
    [];
    lit "jobs:";
    lit "  build-ios:";
    lit "    if: >-";
    lit "      inputs.buildTarget == 'iOS' ||";
    lit "      inputs.buildTarget == 'Both'";
    lit "    uses: Homecooked-Games-Git/devops-toolkit/.github/workflows/unity-build.yml@main";
    lit "    with:";
    lit "      game_name: " ++ [dq] ++ game_name ++ [dq];
    lit "      build_target: " ++ [dq] ++ lit "iOS" ++ [dq];
    lit "      distribution: ${{ inputs.distribution }}";
    lit "      script_defines: ${{ inputs.scriptDefines }}";
    lit "    secrets: inherit";
    [];
    lit "  build-android:";
    lit "    if: >-";
    lit "      inputs.buildTarget == 'Android' ||";
    lit "      inputs.buildTarget == 'Both'";
    lit "    uses: Homecooked-Games-Git/devops-toolkit/.github/workflows/unity-build.yml@main";
    lit "    with:";
    lit "      game_name: " ++ [dq] ++ game_name ++ [dq];
    lit "      build_target: " ++ [dq] ++ lit "Android" ++ [dq];
    lit "      distribution: ${{ inputs.distribution }}";
    lit "      script_defines: ${{ inputs.scriptDefines }}";
    lit "    secrets: inherit"
  ].

Definition fastfile : str :=
  text_of_lines [
    lit "import_from_git(";
    lit "  url: " ++ [dq] ++ lit "https://github.com/Homecooked-Games-Git/devops-toolkit.git" ++ [dq] ++ lit ",";
    lit "  branch: ENV[" ++ [dq] ++ lit "FL_DEVOPS_TOOLKIT_REF" ++ [dq] ++ lit "] || " ++ [dq] ++ lit "main" ++ [dq] ++ lit ",";
    lit "  path: " ++ [dq] ++ lit "fastlane/Fastfile" ++ [dq];
    lit ")"
  ].

Definition matchfile : str :=
  text_of_lines [
    lit "git_url(" ++ [dq] ++ lit "https://github.com/oguztecimer/ios-certificates.git" ++ [dq] ++ lit ")";
    lit "storage_mode(" ++ [dq] ++ lit "git" ++ [dq] ++ lit ")";
    lit "type(" ++ [dq] ++ lit "appstore" ++ [dq] ++ lit ")"
  ].

Definition gemfile : str :=
  text_of_lines [
    lit "source " ++ [dq] ++ lit "https://rubygems.org" ++ [dq];
    [];
    lit "gem " ++ [dq] ++ lit "fastlane" ++ [dq];
    lit "gem " ++ [dq] ++ lit "cocoapods" ++ [dq];
    lit "gem " ++ [dq] ++ lit "fastlane-plugin-firebase_app_distribution" ++ [dq]
  ].

(** [generate_boilerplate(game_name)] *)
Definition generate_boilerplate (game_name : str) : M unit :=
  write_file [lit ".github"; lit "workflows"; lit "build.yml"] (build_yml game_name) ;;
  write_file [lit "fastlane"; lit "Fastfile"] fastfile ;;
  write_file [lit "fastlane"; lit "Matchfile"] matchfile ;;
  write_file [lit "Gemfile"] gemfile.

(** [generate_gemfile_lock()] *)
Definition generate_gemfile_lock : M unit :=
  bundle <- command_exists (lit "bundle") ;;
  if bundle then
    print (lit "Generating Gemfile.lock...") ;;
    run (lit "bundle lock") false false ;;
    ret tt
  else
    print (lit "Warning: bundler not found. Run 'bundle lock' manually to generate Gemfile.lock.").

(** The project slug: ["hcg-" + game_name.lower().replace(" ", "-")]. *)
Definition project_slug (game_name : str) : str :=
  lit "hcg-" ++ replace (lit " ") (lit "-") (lower game_name).

Definition summary : str :=
  nl ++ text_of_lines [
      lit "Done! Files created:";
      lit "  .github/workflows/build.yml";
      lit "  fastlane/Fastfile";
      lit "  fastlane/Matchfile";
      lit "  Gemfile";
      lit "  Assets/Settings/GoogleService-Info.plist  (if Firebase succeeded)";
      lit "  Assets/Settings/google-services.json      (if Firebase succeeded)";
      [];
      lit "Remaining manual steps:";
      lit "  1. Ensure these GitHub secrets are set (org-level or repo-level):";
      lit "     - UNITY_LICENSE";
      lit "     - MATCH_PASSWORD, MATCH_KEYCHAIN_PASSWORD, MATCH_GIT_BASIC_AUTHORIZATION";
      lit "     - APP_STORE_CONNECT_API_KEY_KEY_ID, APP_STORE_CONNECT_API_KEY_ISSUER_ID, APP_STORE_CONNECT_API_KEY_KEY";
      lit "     - ANDROID_KEYSTORE_NAME, ANDROID_KEYSTORE_BASE64, ANDROID_KEYSTORE_PASS, ANDROID_KEYALIAS_NAME, ANDROID_KEYALIAS_PASS";
      lit "     - FIREBASE_SERVICE_ACCOUNT_JSON";
      lit "  2. If Firebase config download failed, download manually from Firebase Console.";
      lit "  3. If service account wasn't added, add " ++ CI_SERVICE_ACCOUNT;
      lit "     with " ++ [dq] ++ lit "Firebase App Distribution Admin" ++ [dq] ++ lit " role in Google Cloud Console IAM."
  ].

(** [main()], on [sys.argv]. *)
Definition main (argv : list str) : M unit :=
  if List.length argv <? 2 then
    print (lit "Usage: python setup.py <GameName>") ;;
    print (lit "Run from the root of your Unity project.") ;;
    sys_exit 1
  else
    let game_name := nth 1 argv [] in
    let project_id := project_slug game_name in
    print (lit "Setting up CI/CD for " ++ game_name ++ lit "..." ++ nl) ;;
    check_prerequisites ;;
    ids <- read_bundle_ids ;;
    let (ios_bundle_id, android_bundle_id) := ids : option str * option str in
    print (lit "iOS bundle ID: " ++ fmt ios_bundle_id) ;;
    print (lit "Android bundle ID: " ++ fmt android_bundle_id) ;;
    setup_firebase game_name project_id ios_bundle_id android_bundle_id ;;
    print (nl ++ lit "Generating CI/CD files...") ;;
    generate_boilerplate game_name ;;
    generate_gemfile_lock ;;
    print summary.

(** Running the script: the module calls [_ensure_path()] when it is
    loaded, then [main()]. *)
Definition script (argv : list str) : M unit :=
  _ensure_path ;; main argv.
End Provisioning.

(** ** The vocabulary of the specification *)

(** [s] begins with [w]. *)
Definition starts_with (w s : str) : bool :=
  match strip_prefix w s with Some _ => true | None => false end.

(** The number of positions of [s] at which [w] occurs. *)
Fixpoint occurrences (w s : str) : nat :=
  (if starts_with w s then 1 else 0)
  + match s with
    | [] => 0
    | _ :: s' => occurrences w s'
    end.

(** The text has no separator in it: it is one entry of a search path. *)
Definition no_sep (c : char) (w : str) : Prop := ~ In c w.

(** The marker that opens the identifier block of the settings document. *)
Definition marker : str := lit "applicationIdentifier:".

Section Vocabulary.
Context {U : Unicode}.

Definition all_space (s : str) : Prop := Forall (fun c => is_space c = true) s.

Definition all_id (s : str) : Prop := Forall (fun c => word_or_dot c = true) s.

(** [s] does not go on with a character of an identifier. *)
Definition ends_id (s : str) : Prop :=
  match s with
  | [] => True
  | c :: _ => word_or_dot c = false
  end.

(** [s] is a platform key, a colon, optional white space and a nonempty
    run [id0] of word characters and dots. *)
Definition key_entry (key s : str) : Prop :=
  exists ws id0 tail,
    s = key ++ lit ":" ++ ws ++ id0 ++ tail
    /\ all_space ws /\ id0 <> [] /\ all_id id0.

(** The same, [id] being the whole run. *)
Definition key_match (key s id : str) : Prop :=
  exists ws tail,
    s = key ++ lit ":" ++ ws ++ id ++ tail
    /\ all_space ws /\ id <> [] /\ all_id id /\ ends_id tail.

(** [rest] holds an entry of the key somewhere. *)
Definition has_key (key rest : str) : Prop :=
  exists before s, rest = before ++ s /\ key_entry key s.

(** [id] is the identifier of the first entry of the key in [rest]. *)
Definition first_key_match (key rest id : str) : Prop :=
  exists before s,
    rest = before ++ s /\ key_match key s id
    /\ forall b1 b2, before = b1 ++ b2 -> b2 <> [] -> ~ key_entry key (b2 ++ s).

(** The text is [v], a nonempty run of decimal digits, and something
    that does not go on with a digit. *)
Definition version_text (version digits : str) : Prop :=
  exists tail,
    version = lit "v" ++ digits ++ tail
    /\ digits <> [] /\ Forall (fun c => is_digit c = true) digits
    /\ match tail with [] => True | c :: _ => is_digit c = false end.
End Vocabulary.

(** *** The patterns in closed form *)

(** The longest prefix of [s] whose characters are in the class [p]. *)
Fixpoint take_run (p : char -> bool) (s : str) : str :=
  match s with
  | c :: s' => if p c then c :: take_run p s' else []
  | [] => []
  end.

Fixpoint drop_run (p : char -> bool) (s : str) : str :=
  match s with
  | c :: s' => if p c then drop_run p s' else s
  | [] => []
  end.

Section Loops.
Variable R : Type.
Implicit Types (k : cont R) (s g : str).

(** The greedy loop over a class: the longest run first, then one
    character less at a time. *)
Fixpoint greedy (p : char -> bool) k s g : option R :=
  match s with
  | c :: s' =>
      if p c then
        match greedy p k s' g with
        | Some x => Some x
        | None => k s g
        end
      else k s g
  | [] => k s g
  end.

(** The lazy loop over the dot: the shortest run first, then one
    character more at a time. *)
Fixpoint lazy k s g : option R :=
  match k s g with
  | Some x => Some x
  | None =>
      match s with
      | [] => None
      | _ :: s' => lazy k s' g
      end
  end.
End Loops.

Section ClosedForms.
Context {U : Unicode}.

(** The identifier of an entry of the key that starts at the first
    character of [s]. *)
Definition key_at (key s : str) : option str :=
  match strip_prefix (key ++ lit ":") s with
  | Some s' =>
      match take_run word_or_dot (lstrip s') with
      | [] => None
      | c :: id => Some (c :: id)
      end
  | None => None
  end.

(** The identifier of the first entry of the key in [s]. *)
Fixpoint first_key (key s : str) : option str :=
  match key_at key s with
  | Some id => Some id
  | None =>
      match s with
      | [] => None
      | _ :: s' => first_key key s'
      end
  end.
End ClosedForms.

Section SearchPathVocabulary.
Context {O : OS}.

(** The entries of the old path that are not priority directories. *)
Definition remaining (st : state) : list str :=
  filter (fun p => negb (mem p priority))
         (split (pathsep os_system) (getenv_PATH st)).

(** The extra directories that are not among them. *)
Definition missing (st : state) : list str :=
  filter (fun p => negb (mem p (remaining st)))
         (extra os_system (os_userhome (world st))).

(** The entries of the search path of a state. *)
Definition path_entries (st : state) : list str :=
  split (pathsep os_system) (getenv_PATH st).
End SearchPathVocabulary.

(** A space becomes a hyphen. *)
Definition hyphenate (c : char) : char := if (c =? 32)%N then 45%N else c.

(** The command of an event, when it runs one. *)
Definition command_of (e : event) : option str :=
  match e with
  | Subprocess cmd _ _ => Some cmd
  | _ => None
  end.

Definition runs_command (prefix : str) (e : event) : bool :=
  match command_of e with
  | Some cmd => starts_with prefix cmd
  | None => false
  end.

(** The diagnostic of a missing settings document. *)
Definition settings_error {O : OS} : str :=
  lit "Error: " ++ path_str os_system settings_path
  ++ lit " not found. Run this from a Unity project root.".

(** The fallback of the login check: its message and its command. *)
Definition login_fallback (e : event) : bool :=
  match e with
  | Print text => starts_with (lit "You need to log in to Firebase.") text
  | Subprocess cmd _ _ => starts_with (lit "firebase login") cmd
  | _ => false
  end.

(** The event provisions the cloud project or generates a file. *)
Definition provisions (e : event) : bool :=
  match e with
  | Print _ => false
  | Subprocess cmd _ _ =>
      starts_with (lit "firebase projects:create") cmd
      || starts_with (lit "firebase apps:") cmd
      || starts_with (lit "gcloud ") cmd
      || starts_with (lit "bundle ") cmd
  | Mkdir _ => true
  | WriteText _ _ => true
  end.

(** The events of the prerequisite checks: no login fallback, nothing
    provisioned, nothing generated. *)
Definition prerequisite_event (e : event) : Prop :=
  login_fallback e = false /\ provisions e = false.

Section Triples.
Context {O : OS}.

(** Whatever the state, the call adds to the trace only events that
    satisfy [Q], and a value it returns satisfies [post]. *)
Definition emits {A} (m : M A) (Q : event -> Prop) (post : A -> Prop) : Prop :=
  forall st,
    exists evs,
      trace (snd (m st)) = trace st ++ evs
      /\ Forall Q evs
      /\ forall a, fst (m st) = Return a -> post a.

(** Whatever the state, the call returns [a] and adds exactly the events
    [evs] to the trace. *)
Definition performs {A} (m : M A) (a : A) (evs : list event) : Prop :=
  forall st, fst (m st) = Return a /\ trace (snd (m st)) = trace st ++ evs.

(** The same, the events depending on what the environment answers. *)
Definition performs_some {A X} (m : M A) (a : A) (evs : X -> list event)
    : Prop :=
  forall st,
    exists x, fst (m st) = Return a /\ trace (snd (m st)) = trace st ++ evs x.
End Triples.

(** ** A scripted environment, to run the script on examples *)

(** Beyond ASCII nothing is white space, a word character or a digit, and
    [lower] changes nothing. *)
Definition ascii_only : Unicode := {|
  uni_space := fun _ => false;
  uni_word := fun _ => false;
  uni_digit := fun _ => None;
  uni_lower := fun s => s;
  uni_space_not_word := fun _ (H : false = true) =>
    False_ind _ (Bool.diff_false_true H)
|}.

Record scripted : Type := {
  tools : list str;                        (* the commands on the search path *)
  files : list (str * str);                (* the files and their text *)
  answers : list (str * CompletedProcess); (* what the commands answer *)
  home : option str                        (* the home directory *)
}.

Fixpoint assoc {A} (k : str) (l : list (str * A)) : option A :=
  match l with
  | [] => None
  | (k', v) :: l' => if str_eqb k k' then Some v else assoc k l'
  end.

Definition scripted_os (sys : system) : OS := {|
  World := scripted;
  os_system := sys;
  os_userhome := home;
  os_which := fun w _ name =>
    if mem name (tools w) then Some (lit "/usr/bin/" ++ name) else None;
  os_subprocess := fun w _ cmd _ =>
    (match assoc cmd (answers w) with
     | Some r => r
     | None => {| returncode := 0; stdout := [] |}
     end, w);
  os_exists := fun w p =>
    match assoc p (files w) with Some _ => true | None => false end;
  os_read_text := fun w p =>
    match assoc p (files w) with Some t => t | None => [] end;
  os_mkdir := fun w _ => w;
  os_write_text := fun w p t =>
    {| tools := tools w; files := (p, t) :: files w;
       answers := answers w; home := home w |}
|}.

Definition start {O : OS} (path : option str) (w : World) : state :=
  {| env_PATH := path; world := w; trace := [] |}.

(** *** The effects of [setup_firebase], step by step *)

Section ProvisioningSteps.
Context {O : OS}.

Definition create_events (game_name project_id : str) : list event :=
  [Print (nl ++ lit "Creating Firebase project: " ++ project_id ++ lit "...");
   Subprocess (create_project_cmd game_name project_id) false false].

Definition register_ios_events (ios : option str) (project_id : str)
    : list event :=
  if truthy ios then
    [Print (lit "Registering iOS app (" ++ fmt ios ++ lit ")...");
     Subprocess (register_ios_cmd (fmt ios) project_id) false false]
  else [].

Definition register_android_events (android : option str) (project_id : str)
    : list event :=
  if truthy android then
    [Print (lit "Registering Android app (" ++ fmt android ++ lit ")...");
     Subprocess (register_android_cmd (fmt android) project_id) false false]
  else [].

Definition grant_warning : str :=
  lit "Warning: gcloud not found. Add " ++ CI_SERVICE_ACCOUNT
  ++ lit " manually in Firebase Console with App Distribution Admin role.".

(** The last step: the role is granted, or the warning is printed. *)
Definition grant_event (project_id : str) (gcloud : bool) : event :=
  if gcloud then Subprocess (grant_role_cmd project_id) false false
  else Print grant_warning.
End ProvisioningSteps.

(** *** Examples *)

(** The settings document of the end-to-end scenario of the specification. *)
Definition example_doc : str :=
  marker ++ nl ++ lit "  iPhone: com.x.mygame" ++ nl ++ lit "  Android: com.x.mygame".

(** A settings document without the Android key. *)
Definition doc_without_android : str :=
  marker ++ nl ++ lit "  iPhone: com.x.mygame" ++ nl.

Definition settings_file : str := lit "ProjectSettings/ProjectSettings.asset".

(** A machine with an old [node] and no Homebrew. *)
Definition old_node : scripted := {|
  tools := [lit "node"; lit "firebase"];
  files := [(settings_file, example_doc)];
  answers := [(lit "node --version",
               {| returncode := 0; stdout := lit "v18.1.0" ++ nl |})];
  home := Some (lit "/home/dev")
|}.

(** A machine without [node], with the Firebase CLI installed on its own. *)
Definition no_node : scripted := {|
  tools := [lit "firebase"];
  files := [(settings_file, doc_without_android)];
  answers := [];
  home := Some (lit "/home/dev")
|}.

(** A machine whose user has a colon in the home directory. *)
Definition colon_home : scripted := {|
  tools := [];
  files := [];
  answers := [];
  home := Some (lit "/home/a:b")
|}.

(** A project directory without the settings document. *)
Definition no_settings : scripted := {|
  tools := [lit "firebase"];
  files := [];
  answers := [];
  home := Some (lit "/home/dev")
|}.

Definition usr_bin : option str := Some (lit "/usr/bin").

Definition example_argv : list str := [lit "setup.py"; lit "My Game"].

(** The process on a Linux machine, before the script has run. *)
Definition on_linux (w : scripted) : @state (scripted_os Linux) :=
  @start (scripted_os Linux) usr_bin w.

(** ** More vocabulary *)

Section Trimmed.
Context {U : Unicode}.

(** The text neither begins nor ends with white space. *)
Definition trimmed (s : str) : Prop :=
  (forall c t, s = c :: t -> is_space c = false)
  /\ (forall c t, s = t ++ [c] -> is_space c = false).
End Trimmed.

Section ExtractorVocabulary.
Context {U : Unicode}.

(** What the extractor reports for a key, given the text [rest] after
    the marker: the identifier of the first entry of the key, absent
    when [rest] has no entry of the key. *)
Definition extracted (key rest : str) (o : option str) : Prop :=
  (forall id, o = Some id <-> first_key_match key rest id)
  /\ (o = None <-> ~ has_key key rest).

(** The character can stand between double quotes in a shell command:
    it is no white space, double quote, dollar, backquote or backslash. *)
Definition shell_safe (c : char) : Prop :=
  is_space c = false /\ c <> dq /\ c <> 36%N /\ c <> 96%N /\ c <> 92%N.
End ExtractorVocabulary.

Section ReadVocabulary.
Context {O : OS}.

(** What [read_bundle_ids] prints about the identifiers it found: nothing
    when both are there, else the warning and one line for each
    platform. *)
Definition missing_id_events (ios android : option str) : list event :=
  match ios, android with
  | Some _, Some _ => []
  | _, _ =>
      [Print (lit "Warning: Could not parse all bundle IDs from "
              ++ path_str os_system settings_path);
       Print (lit "  iOS: "
              ++ match ios with Some id => id | None => lit "NOT FOUND" end);
       Print (lit "  Android: "
              ++ match android with Some id => id | None => lit "NOT FOUND" end)]
  end.
End ReadVocabulary.


(** The commands run, in order. *)
Definition commands (evs : list event) : list str :=
  flat_map (fun e => match e with Subprocess c _ _ => [c] | _ => [] end) evs.

Section GeneratedFiles.
Context {O : OS}.




End GeneratedFiles.

(** A character of a cloud project name: a lower-case letter, a digit or a
    hyphen. *)
Definition slug_char (c : char) : bool :=
  in_range 97 122 c || in_range 48 57 c || (c =? 45)%N.

(** A character of a game name that gives one: a letter, a digit, a space
    or a hyphen. *)
Definition name_char (c : char) : bool :=
  in_range 65 90 c || in_range 97 122 c || in_range 48 57 c
  || (c =? 32)%N || (c =? 45)%N.

Section Failures.
Context {O : OS}.

(** Whatever the state, a code the call exits with is in [E] and an
    exception it raises is in [X]. *)
Definition fails_only {A} (m : M A) (E : Z -> Prop) (X : exn -> Prop) : Prop :=
  forall st,
    match fst (m st) with
    | Return _ => True
    | SysExit code => E code
    | Raised e => X e
    end.
End Failures.

(** A [CalledProcessError] is that of one of the two installations of the
    Firebase CLI; nothing is said of the other exceptions. *)
Definition checked_install (e : exn) : Prop :=
  match e with
  | CalledProcessError _ cmd =>
      cmd = lit "npm install -g firebase-tools"
      \/ cmd = lit "brew install firebase-cli"
  | ValueError _ => True
  end.

Section Footprint.
Context {O : OS}.




End Footprint.

(** *** More examples *)

(** A machine with an old [node] and Homebrew. *)
Definition old_node_brew : scripted := {|
  tools := [lit "node"; lit "brew"; lit "firebase"];
  files := [(settings_file, example_doc)];
  answers := [(lit "node --version",
               {| returncode := 0; stdout := lit "v18.1.0" ++ nl |})];
  home := Some (lit "/home/dev")
|}.

(** A machine with [npm] only, on which the installation fails. *)
Definition npm_fails : scripted := {|
  tools := [lit "npm"];
  files := [];
  answers := [(lit "npm install -g firebase-tools",
               {| returncode := 1; stdout := [] |})];
  home := Some (lit "/home/dev")
|}.

(** A machine with none of the tools. *)
Definition bare : scripted := {|
  tools := [];
  files := [];
  answers := [];
  home := Some (lit "/home/dev")
|}.

(** A search path that holds both extra directories and no priority
    directory. *)
Definition full_path : str :=
  lit "/usr/bin:/usr/local/bin:/home/dev/.npm-global/bin".

(** A document with two markers; the entries follow the second one. *)
Definition two_markers : str :=
  lit "x: 1" ++ nl ++ marker ++ lit " {}" ++ nl ++ marker ++ nl
  ++ lit "  Android: com.x.droid" ++ nl ++ lit "  iPhone: com.x.phone" ++ nl.

(** A Mac with Homebrew and nothing else. *)
Definition mac_brew : scripted := {|
  tools := [lit "brew"];
  files := [];
  answers := [];
  home := Some (lit "/Users/dev")
|}.

(** A machine with a recent [node]. *)
Definition new_node : scripted := {|
  tools := [lit "node"; lit "firebase"];
  files := [(settings_file, example_doc)];
  answers := [(lit "node --version",
               {| returncode := 0; stdout := lit "v22.3.0" ++ nl |})];
  home := Some (lit "/home/dev")
|}.

(** A major number of 4301 zeros. *)
Definition zeros : str := repeat 48%N (S (N.to_nat 4300)).

(** A machine whose [node] reports it. *)
Definition padded_node : scripted := {|
  tools := [lit "node"; lit "firebase"];
  files := [(settings_file, example_doc)];
  answers := [(lit "node --version",
               {| returncode := 0; stdout := lit "v" ++ zeros |})];
  home := Some (lit "/home/dev")
|}.

(** * Strings and lists *)

Lemma str_eqb_eq (a b : str) : str_eqb a b = true <-> a = b.
Proof.
  unfold str_eqb. destruct (list_eq_dec N.eq_dec a b); split; congruence.
Qed.

Lemma str_eqb_refl (a : str) : str_eqb a a = true.
Proof. now apply str_eqb_eq. Qed.

Lemma mem_In (p : str) (l : list str) : mem p l = true <-> In p l.
Proof.
  unfold mem. rewrite existsb_exists. split.
  - intros [x [Hx He]]. apply str_eqb_eq in He. now subst.
  - intros H. exists p. split; [assumption | apply str_eqb_refl].
Qed.

Lemma mem_false (p : str) (l : list str) : mem p l = false <-> ~ In p l.
Proof.
  rewrite <- mem_In. destruct (mem p l); split; congruence.
Qed.

(** ** [split] and [join] *)

Lemma split_no_sep (c : char) (s : str) : Forall (no_sep c) (split c s).
Proof.
  induction s as [|x s IH]; simpl.
  - constructor; [intros []|constructor].
  - destruct (N.eqb_spec x c) as [->|Hne].
    + constructor; [intros []|assumption].
    + destruct (split c s) as [|w ws]; [repeat constructor; intros [?|[]]; congruence|].
      inversion IH; subst. constructor; [|assumption].
      intros [?|?]; [congruence|contradiction].
Qed.

Lemma split_word (c : char) (w : str) : no_sep c w -> split c w = [w].
Proof.
  induction w as [|x w IH]; intros H; simpl; [reflexivity|].
  destruct (N.eqb_spec x c) as [->|Hne]; [exfalso; apply H; now left|].
  rewrite IH; [reflexivity|]. intros Hin. apply H. now right.
Qed.

Lemma split_app_sep (c : char) (w s : str) :
  no_sep c w -> split c (w ++ c :: s) = w :: split c s.
Proof.
  induction w as [|x w IH]; intros H; simpl.
  - now rewrite N.eqb_refl.
  - destruct (N.eqb_spec x c) as [->|Hne]; [exfalso; apply H; now left|].
    rewrite IH; [reflexivity|]. intros Hin. apply H. now right.
Qed.

(** The entries that follow a first entry without separator are those of
    the rest of the joined text. *)
Lemma split_join_cons (c : char) (w : str) (l : list str) :
  no_sep c w -> l <> [] ->
  split c (join [c] (w :: l)) = w :: split c (join [c] l).
Proof.
  intros Hw Hl. destruct l as [|w' l]; [congruence|].
  change (join [c] (w :: w' :: l)) with (w ++ [c] ++ join [c] (w' :: l)).
  simpl app. now apply split_app_sep.
Qed.

Lemma split_join (c : char) (l : list str) :
  l <> [] -> Forall (no_sep c) l -> split c (join [c] l) = l.
Proof.
  induction l as [|w l IH]; intros Hne Hall; [congruence|].
  inversion Hall; subst.
  destruct l as [|w' l].
  - simpl. now apply split_word.
  - rewrite split_join_cons by (assumption || discriminate).
    f_equal. apply IH; [discriminate | assumption].
Qed.

(** ** The loop over the extra directories *)

Lemma append_missing_two (e1 e2 : str) (parts : list str) :
  e1 <> e2 ->
  append_missing [e1; e2] parts
  = parts ++ filter (fun p => negb (mem p parts)) [e1; e2].
Proof.
  intros Hne. simpl.
  destruct (mem e1 parts) eqn:H1; simpl.
  - destruct (mem e2 parts) eqn:H2; simpl; [now rewrite app_nil_r | reflexivity].
  - assert (H12 : mem e2 (parts ++ [e1]) = mem e2 parts).
    { unfold mem. rewrite existsb_app. simpl.
      assert (str_eqb e2 e1 = false) as ->.
      { destruct (str_eqb e2 e1) eqn:E; [apply str_eqb_eq in E; congruence | reflexivity]. }
      now rewrite !orb_false_r. }
    rewrite H12. destruct (mem e2 parts); simpl; [reflexivity|].
    now rewrite <- app_assoc.
Qed.

(** * The search path *)

Lemma no_sep_check (c : char) (w : str) :
  forallb (fun x => negb (x =? c)%N) w = true -> no_sep c w.
Proof.
  intros H Hin. rewrite forallb_forall in H. specialize (H c Hin).
  now rewrite N.eqb_refl in H.
Qed.

Lemma no_sep_app (c : char) (a b : str) :
  no_sep c a -> no_sep c b -> no_sep c (a ++ b).
Proof.
  intros Ha Hb Hin. apply in_app_or in Hin. destruct Hin; [now apply Ha | now apply Hb].
Qed.

Lemma priority_no_sep (sys : system) : Forall (no_sep (pathsep sys)) priority.
Proof.
  destruct sys; repeat constructor; apply no_sep_check; reflexivity.
Qed.

Lemma rstrip_slash_rev_incl (c : char) (r : str) :
  In c (rstrip_slash_rev r) -> In c r.
Proof.
  induction r as [|x r IH]; simpl; [tauto|].
  destruct (x =? 47)%N; [intros H; right; now apply IH | tauto].
Qed.

(** The expanded directory is the home directory, or the tilde left as it
    is, followed by the rest of the path. *)
Lemma expanduser_npm (sys : system) (userhome : option str) :
  exists x,
    expanduser sys userhome (lit "~/.npm-global/bin") = x ++ lit "/.npm-global/bin"
    /\ forall c, In c x -> c = 126%N \/ exists h, userhome = Some h /\ In c h.
Proof.
  change (lit "~/.npm-global/bin") with (126%N :: lit "/.npm-global/bin").
  destruct userhome as [h|].
  - assert (Hposix : exists x,
        rev (rstrip_slash_rev (rev h)) ++ lit "/.npm-global/bin"
        = x ++ lit "/.npm-global/bin"
        /\ forall c, In c x -> c = 126%N \/ exists h', Some h = Some h' /\ In c h').
    { eexists. split; [reflexivity|]. intros c Hc. right. exists h. split; [reflexivity|].
      apply in_rev in Hc. apply rstrip_slash_rev_incl in Hc. now apply in_rev. }
    destruct sys; simpl; try exact Hposix.
    exists h. split; [reflexivity|]. intros c Hc. right. now exists h.
  - exists [126%N]. split; [reflexivity|]. intros c [<-|[]]. now left.
Qed.

Lemma extra_distinct (sys : system) (userhome : option str) :
  lit "/usr/local/bin" <> expanduser sys userhome (lit "~/.npm-global/bin").
Proof.
  destruct (expanduser_npm sys userhome) as [x [-> _]]. intros H.
  apply (f_equal (@List.length char)) in H. rewrite length_app in H.
  change (List.length (lit "/usr/local/bin")) with 14 in H.
  change (List.length (lit "/.npm-global/bin")) with 16 in H. lia.
Qed.

Lemma npm_not_priority (sys : system) (userhome : option str) :
  ~ In (expanduser sys userhome (lit "~/.npm-global/bin")) priority.
Proof.
  destruct (expanduser_npm sys userhome) as [x [-> _]]. intros H.
  assert (Hs : forall p, In p priority ->
            firstn 16 (rev p) <> rev (lit "/.npm-global/bin")).
  { intros p [<-|[<-|[]]]; vm_compute; discriminate. }
  apply Hs in H. apply H. rewrite rev_app_distr, firstn_app.
  change (16 - List.length (rev (lit "/.npm-global/bin"))) with 0.
  rewrite firstn_O, app_nil_r. reflexivity.
Qed.

Lemma extra_no_sep (sys : system) (userhome : option str) :
  (forall h, userhome = Some h -> no_sep (pathsep sys) h) ->
  Forall (no_sep (pathsep sys)) (extra sys userhome).
Proof.
  intros Hh. unfold extra. constructor; [|constructor; [|constructor]].
  - destruct sys; apply no_sep_check; reflexivity.
  - destruct (expanduser_npm sys userhome) as [x [-> Hx]].
    apply no_sep_app.
    + intros Hin. destruct (Hx _ Hin) as [Hc|[h [Hu Hc]]].
      * destruct sys; discriminate.
      * now apply (Hh h Hu).
    + destruct sys; apply no_sep_check; reflexivity.
Qed.

Lemma extra_not_priority (sys : system) (userhome : option str) :
  forall p, In p (extra sys userhome) -> ~ In p priority.
Proof.
  intros p [<-|[<-|[]]].
  - apply mem_false. reflexivity.
  - apply npm_not_priority.
Qed.

Lemma filter_priority_fixed (l : list str) :
  (forall p, In p l -> ~ In p priority) ->
  filter (fun p => negb (mem p priority)) (priority ++ l) = l.
Proof.
  intros H. rewrite filter_app.
  replace (filter (fun p => negb (mem p priority)) priority) with (@nil str)
    by reflexivity.
  rewrite app_nil_l. apply forallb_filter_id. apply forallb_forall. intros p Hp.
  apply negb_true_iff, mem_false. now apply H.
Qed.

Section SearchPath.
Context {O : OS}.

Lemma ensure_path_parts (st : state) :
  append_missing (extra os_system (os_userhome (world st))) (remaining st)
  = remaining st ++ missing st.
Proof. apply append_missing_two, extra_distinct. Qed.

Lemma ensure_path_parts_not_nil (st : state) : remaining st ++ missing st <> [].
Proof.
  unfold missing, extra. simpl.
  destruct (mem (lit "/usr/local/bin") (remaining st)) eqn:H; simpl.
  - apply mem_In in H. destruct (remaining st); [contradiction | discriminate].
  - intros E. apply app_eq_nil in E. destruct E; discriminate.
Qed.
End SearchPath.

Section SearchPathRebuild.
Context {O : OS}.

Lemma ensure_path_eq (st : state) :
  _ensure_path st
  = (Return tt,
     {| env_PATH :=
          Some (join [pathsep os_system] (priority ++ remaining st ++ missing st));
        world := world st;
        trace := trace st |}).
Proof.
  unfold _ensure_path, ensure_path_value. fold (remaining st).
  now rewrite ensure_path_parts.
Qed.

Lemma remaining_no_sep (st : state) :
  Forall (no_sep (pathsep os_system)) (remaining st).
Proof.
  unfold remaining. apply Forall_forall. intros p Hp.
  apply filter_In in Hp. destruct Hp as [Hp _].
  revert p Hp. apply Forall_forall, split_no_sep.
Qed.

Lemma remaining_not_priority (st : state) :
  forall p, In p (remaining st) -> ~ In p priority.
Proof.
  intros p Hp. apply filter_In in Hp. destruct Hp as [_ Hp].
  now apply mem_false, negb_true_iff.
Qed.

Lemma missing_extra (st : state) :
  forall p, In p (missing st) -> In p (extra os_system (os_userhome (world st))).
Proof. intros p Hp. apply filter_In in Hp. tauto. Qed.

Lemma extra_in_parts (st : state) :
  forall p, In p (extra os_system (os_userhome (world st))) ->
       In p (remaining st ++ missing st).
Proof.
  intros p Hp. apply in_or_app.
  destruct (mem p (remaining st)) eqn:E.
  - left. now apply mem_In.
  - right. apply filter_In. split; [assumption | now rewrite E].
Qed.

(** C3: after one call of [_ensure_path] the search path is the priority
    directories in their declared order, then the entries of the old
    path that are not priority directories, then the extra directories
    that were not among these; so its entries begin with the priority
    directories, in their declared order, whatever the old path was. *)
Theorem ensure_path_rebuild (st : state) :
  _ensure_path st
  = (Return tt,
     {| env_PATH :=
          Some (join [pathsep os_system] (priority ++ remaining st ++ missing st));
        world := world st;
        trace := trace st |})
  /\ exists rest, path_entries (snd (_ensure_path st)) = priority ++ rest.
Proof.
  split; [apply ensure_path_eq|].
  rewrite ensure_path_eq. unfold path_entries, getenv_PATH. cbn [snd env_PATH].
  pose proof (priority_no_sep os_system) as Hp.
  inversion Hp as [|p1 l1 Hp1 Hp']; subst. inversion Hp' as [|p2 l2 Hp2 _]; subst.
  pose proof (ensure_path_parts_not_nil st) as Hne.
  change (priority ++ remaining st ++ missing st)
    with (lit "/opt/homebrew/bin" :: lit "/opt/homebrew/sbin"
          :: (remaining st ++ missing st)).
  rewrite split_join_cons by (assumption || discriminate).
  rewrite split_join_cons by assumption.
  eexists. reflexivity.
Qed.

(** C2, amended: when the home directory of the user holds no path
    separator, a second call of [_ensure_path] leaves the process as the
    first call left it: the same search path, entry by entry. *)
Theorem ensure_path_idempotent (st : state) :
  (forall h, os_userhome (world st) = Some h -> no_sep (pathsep os_system) h) ->
  _ensure_path (snd (_ensure_path st)) = _ensure_path st.
Proof.
  intros Hhome. rewrite (ensure_path_eq st). cbn [snd].
  set (parts := remaining st ++ missing st).
  set (st1 := {| env_PATH := _; world := world st; trace := trace st |}).
  rewrite (ensure_path_eq st1).
  assert (Hsep : Forall (no_sep (pathsep os_system)) (priority ++ parts)).
  { apply Forall_app. split; [apply priority_no_sep|].
    apply Forall_app. split; [apply remaining_no_sep|].
    apply Forall_forall. intros p Hp. apply missing_extra in Hp.
    revert p Hp. apply Forall_forall, extra_no_sep, Hhome. }
  assert (Hrem : remaining st1 = parts).
  { unfold remaining, getenv_PATH, st1. cbn [env_PATH].
    rewrite split_join by (assumption || discriminate).
    apply filter_priority_fixed. intros p Hp. apply in_app_or in Hp.
    destruct Hp as [Hp|Hp]; [now apply (remaining_not_priority st)|].
    apply missing_extra in Hp. now apply extra_not_priority in Hp. }
  assert (Hmis : missing st1 = []).
  { unfold missing. rewrite Hrem. simpl world.
    assert (Hall : forall p, In p (extra os_system (os_userhome (world st))) ->
              negb (mem p parts) = false).
    { intros p Hp. apply negb_false_iff, mem_In. now apply extra_in_parts. }
    revert Hall. generalize (extra os_system (os_userhome (world st))).
    induction l as [|p l IH]; intros Hall; simpl; [reflexivity|].
    rewrite (Hall p) by now left. apply IH. intros q Hq. apply Hall. now right. }
  rewrite Hrem, Hmis, app_nil_r. reflexivity.
Qed.
End SearchPathRebuild.

(** * The matcher on the constructs of the patterns *)

Lemma strip_prefix_app (w s : str) : strip_prefix w (w ++ s) = Some s.
Proof.
  induction w as [|a w IH]; simpl; [reflexivity|]. now rewrite N.eqb_refl.
Qed.

Lemma strip_prefix_Some (w s s' : str) : strip_prefix w s = Some s' -> s = w ++ s'.
Proof.
  revert s. induction w as [|a w IH]; intros s H; simpl in *.
  - congruence.
  - destruct s as [|c s]; [discriminate|].
    destruct (N.eqb_spec a c) as [->|]; [|discriminate].
    f_equal. now apply IH.
Qed.

Lemma take_drop_run (p : char -> bool) (s : str) :
  take_run p s ++ drop_run p s = s.
Proof.
  induction s as [|c s IH]; simpl; [reflexivity|].
  destruct (p c); simpl; [now rewrite IH | reflexivity].
Qed.

Lemma take_run_all (p : char -> bool) (a b : str) :
  Forall (fun c => p c = true) a ->
  match b with [] => True | c :: _ => p c = false end ->
  take_run p (a ++ b) = a.
Proof.
  intros Ha Hb. induction Ha as [|c a Hc Ha IH]; simpl.
  - destruct b as [|c b]; simpl; [reflexivity | now rewrite Hb].
  - now rewrite Hc, IH.
Qed.

Lemma take_run_Forall (p : char -> bool) (s : str) :
  Forall (fun c => p c = true) (take_run p s).
Proof.
  induction s as [|c s IH]; simpl; [constructor|].
  destruct (p c) eqn:E; constructor; assumption.
Qed.

Lemma drop_run_head (p : char -> bool) (s : str) :
  match drop_run p s with [] => True | c :: _ => p c = false end.
Proof.
  induction s as [|c s IH]; simpl; [exact I|].
  destruct (p c) eqn:E; [assumption | exact E].
Qed.

Lemma firstn_take_run (p : char -> bool) (s : str) :
  firstn (List.length s - List.length (drop_run p s)) s = take_run p s.
Proof.
  rewrite <- (take_drop_run p s) at 1 3.
  rewrite length_app, Nat.add_sub.
  rewrite firstn_app, Nat.sub_diag, firstn_all. simpl. apply app_nil_r.
Qed.

Section Matcher.
Variable R : Type.
Implicit Types (k : cont R) (s g : str).

Lemma bt_Seq (r1 r2 : regex) s g k :
  bt (Seq r1 r2) s g k = bt r1 s g (fun s' g' => bt r2 s' g' k).
Proof. reflexivity. Qed.

Lemma bt_Cls (p : char -> bool) s g k :
  bt (Cls p) s g k
  = match s with
    | x :: s' => if p x then k s' g else None
    | [] => None
    end.
Proof. reflexivity. Qed.

Lemma bt_Chr (c : char) s g k :
  bt (Chr c) s g k
  = match s with
    | x :: s' => if (x =? c)%N then k s' g else None
    | [] => None
    end.
Proof. reflexivity. Qed.

Lemma bt_Star (r : regex) s g k :
  bt (Star r) s g k = star_loop (bt r) k (List.length s) s g.
Proof. reflexivity. Qed.

Lemma bt_LazyStar (r : regex) s g k :
  bt (LazyStar r) s g k = lazy_loop (bt r) k (List.length s) s g.
Proof. reflexivity. Qed.

Lemma bt_Group (r : regex) s g k :
  bt (Group r) s g k
  = bt r s g (fun s' _ => k s' (firstn (List.length s - List.length s') s)).
Proof. reflexivity. Qed.

Lemma bt_Literal (w : str) s g k :
  bt (Literal w) s g k
  = match strip_prefix w s with Some s' => k s' g | None => None end.
Proof.
  revert s. induction w as [|a w IH]; intros s; simpl; [reflexivity|].
  destruct s as [|c s]; [reflexivity|].
  rewrite (N.eqb_sym a c). destruct (c =? a)%N; [apply IH | reflexivity].
Qed.

Lemma star_loop_Cls (p : char -> bool) k (fuel : nat) s g :
  List.length s <= fuel ->
  star_loop (bt (Cls p)) k fuel s g = greedy p k s g.
Proof.
  revert s. induction fuel as [|fuel IH]; intros s Hlen.
  - destruct s; [reflexivity | simpl in Hlen; lia].
  - destruct s as [|c s]; [reflexivity|].
    simpl. unfold iterate. simpl.
    destruct (p c); [|reflexivity].
    assert (Hlt : (List.length s <? S (List.length s)) = true)
      by (apply Nat.ltb_lt; lia).
    rewrite Hlt, IH by (simpl in Hlen; lia). reflexivity.
Qed.

Lemma lazy_loop_Dot k (fuel : nat) s g :
  List.length s <= fuel ->
  lazy_loop (bt Dot) k fuel s g = lazy k s g.
Proof.
  revert s. induction fuel as [|fuel IH]; intros s Hlen.
  - destruct s; [simpl; now destruct (k [] g) | simpl in Hlen; lia].
  - destruct s as [|c s]; simpl; destruct (k _ g); try reflexivity.
    unfold iterate. simpl.
    assert (Hlt : (List.length s <? S (List.length s)) = true)
      by (apply Nat.ltb_lt; lia).
    rewrite Hlt. apply IH. simpl in Hlen. lia.
Qed.

(** When whatever follows a greedy class always matches, the class takes
    its longest run. *)
Lemma greedy_total (p : char -> bool) k s g :
  (forall s' g', k s' g' <> None) ->
  greedy p k s g = k (drop_run p s) g.
Proof.
  intros Hk. induction s as [|c s IH]; simpl; [reflexivity|].
  destruct (p c); [|reflexivity].
  rewrite IH. destruct (k (drop_run p s) g) eqn:E; [reflexivity|].
  now apply Hk in E.
Qed.
End Matcher.

(** * The patterns of the script in closed form *)

Lemma ascii_forall (P : char -> bool) :
  forallb P (map N.of_nat (seq 0 128)) = true ->
  forall c, is_ascii c = true -> P c = true.
Proof.
  intros H c Hc. rewrite forallb_forall in H. apply H.
  apply in_map_iff. exists (N.to_nat c). split; [apply N2Nat.id|].
  apply in_seq. unfold is_ascii in Hc. apply N.ltb_lt in Hc. lia.
Qed.

Section PatternFacts.
Context {U : Unicode}.

(** No white space character is a character of an identifier. *)
Lemma space_not_id (c : char) : is_space c = true -> word_or_dot c = false.
Proof.
  unfold is_space, word_or_dot, is_word. destruct (is_ascii c) eqn:Ha.
  - intros Hs.
    pose proof (ascii_forall
      (fun c => implb (ascii_space c) (negb (ascii_word c || (c =? 46)%N)))
      eq_refl c Ha) as H.
    simpl in H. rewrite Hs in H. simpl in H. now apply negb_true_iff in H.
  - intros Hs. rewrite (uni_space_not_word c Hs). simpl.
    apply N.eqb_neq. unfold is_ascii in Ha. apply N.ltb_ge in Ha. lia.
Qed.

Lemma id_not_space (c : char) : word_or_dot c = true -> is_space c = false.
Proof.
  intros H. destruct (is_space c) eqn:E; [|reflexivity].
  apply space_not_id in E. congruence.
Qed.

Lemma lstrip_drop_run (s : str) : lstrip s = drop_run is_space s.
Proof.
  induction s as [|c s IH]; simpl; [reflexivity|]. now rewrite IH.
Qed.

Lemma lstrip_spaces (ws s : str) :
  all_space ws ->
  match s with [] => True | c :: _ => is_space c = false end ->
  lstrip (ws ++ s) = s.
Proof.
  intros Hws Hs. induction Hws as [|c ws Hc Hws IH]; simpl.
  - destruct s as [|c s]; simpl; [reflexivity | now rewrite Hs].
  - now rewrite Hc.
Qed.

(** An identifier is left as it is by [strip]. *)
Lemma strip_id (id : str) : all_id id -> strip id = id.
Proof.
  intros Hid.
  assert (Hl : forall s, all_id s -> lstrip s = s).
  { intros s Hs. destruct Hs as [|c s Hc Hs]; simpl; [reflexivity|].
    now rewrite (id_not_space c Hc). }
  unfold strip, rstrip. rewrite (Hl id Hid).
  rewrite Hl; [apply rev_involutive|].
  apply Forall_rev. exact Hid.
Qed.

(** [([\w.]+)] at the end of a pattern takes the whole run. *)
Lemma bt_group_run (p : char -> bool) (s g : str) :
  bt (Group (Plus (Cls p))) s g (fun _ g' => Some g')
  = match take_run p s with
    | [] => None
    | c :: id => Some (c :: id)
    end.
Proof.
  rewrite bt_Group. unfold Plus. rewrite bt_Seq, bt_Cls.
  destruct s as [|c s]; [reflexivity|].
  pose proof (firstn_take_run p (c :: s)) as H.
  cbn [take_run drop_run] in *. destruct (p c); [|reflexivity].
  rewrite bt_Star, star_loop_Cls by lia.
  rewrite greedy_total by discriminate.
  now rewrite H.
Qed.

(** [\s*([\w.]+)]: giving white space back never helps, since no white
    space character starts an identifier. *)
Lemma bt_value (s g : str) :
  bt (Seq (Star (Cls is_space)) (Group (Plus (Cls word_or_dot)))) s g
     (fun _ g' => Some g')
  = match take_run word_or_dot (lstrip s) with
    | [] => None
    | c :: id => Some (c :: id)
    end.
Proof.
  rewrite bt_Seq, bt_Star, star_loop_Cls by lia.
  induction s as [|c s IH]; cbn [greedy lstrip].
  - apply bt_group_run.
  - destruct (is_space c) eqn:Hc.
    + rewrite IH.
      destruct (take_run word_or_dot (lstrip s)); [|reflexivity].
      rewrite bt_group_run. cbn [take_run]. now rewrite (space_not_id c Hc).
    + apply bt_group_run.
Qed.

Lemma bt_key (key s g : str) :
  bt (Seq (Literal (key ++ lit ":"))
        (Seq (Star (Cls is_space)) (Group (Plus (Cls word_or_dot))))) s g
     (fun _ g' => Some g')
  = key_at key s.
Proof.
  rewrite bt_Seq, bt_Literal. unfold key_at.
  destruct (strip_prefix (key ++ lit ":") s); [apply bt_value | reflexivity].
Qed.

Lemma re_match_bundle (key s : str) :
  re_match (bundle_id_re key) s
  = match strip_prefix marker s with
    | Some s' => first_key key s'
    | None => None
    end.
Proof.
  unfold re_match, bundle_id_re. fold marker.
  rewrite bt_Seq, bt_Literal.
  destruct (strip_prefix marker s) as [s1|]; [|reflexivity].
  rewrite bt_Seq, bt_LazyStar, lazy_loop_Dot by lia.
  induction s1 as [|c s1 IH]; cbn [lazy first_key]; rewrite bt_key.
  - now destruct (key_at key []).
  - destruct (key_at key (c :: s1)); [reflexivity | apply IH].
Qed.
End PatternFacts.

(** * The identifier extractor *)

Lemma starts_with_app (w s : str) : starts_with w (w ++ s) = true.
Proof. unfold starts_with. now rewrite strip_prefix_app. Qed.

Lemma starts_with_false (w s : str) :
  starts_with w s = false -> strip_prefix w s = None.
Proof. unfold starts_with. now destruct (strip_prefix w s). Qed.

Lemma occurrences_cons (w : str) (c : char) (s : str) :
  occurrences w (c :: s)
  = (if starts_with w (c :: s) then 1 else 0) + occurrences w s.
Proof. reflexivity. Qed.

Lemma occurrences_start (w t : str) :
  starts_with w t = true -> 1 <= occurrences w t.
Proof. intros H. destruct t; simpl; rewrite H; lia. Qed.

Lemma occurrences_here (w s : str) : 1 <= occurrences w (w ++ s).
Proof. apply occurrences_start, starts_with_app. Qed.

Lemma occurrences_after (w a s : str) : 1 <= occurrences w (a ++ w ++ s).
Proof.
  induction a as [|c a IH]; [exact (occurrences_here w s)|].
  change ((c :: a) ++ w ++ s) with (c :: (a ++ w ++ s)).
  rewrite occurrences_cons. lia.
Qed.

Lemma occurrences_none_starts (w s : str) :
  occurrences w s = 0 -> starts_with w s = false.
Proof.
  destruct s as [|c s]; simpl; destruct (starts_with w _); (reflexivity || lia).
Qed.

Section Extractor.
Context {U : Unicode}.

Lemma re_search_bundle_none (key s : str) :
  occurrences marker s = 0 -> re_search (bundle_id_re key) s = None.
Proof.
  induction s as [|c s IH]; intros H; cbn [re_search];
    rewrite re_match_bundle,
      (starts_with_false _ _ (occurrences_none_starts _ _ H)); [reflexivity|].
  apply IH. rewrite occurrences_cons in H. lia.
Qed.

(** With one marker in the document the search is the search of the key
    in what follows the marker. *)
Lemma re_search_bundle_single (key pre rest : str) :
  occurrences marker (pre ++ marker ++ rest) = 1 ->
  re_search (bundle_id_re key) (pre ++ marker ++ rest) = first_key key rest.
Proof.
  induction pre as [|c pre IH]; intros H.
  - rewrite app_nil_l in *.
    change (marker ++ rest)
      with (97%N :: (lit "pplicationIdentifier:" ++ rest)) in *.
    cbn [re_search].
    change (97%N :: (lit "pplicationIdentifier:" ++ rest))
      with (marker ++ rest) at 1.
    rewrite re_match_bundle, strip_prefix_app.
    destruct (first_key key rest); [reflexivity|].
    apply re_search_bundle_none.
    rewrite occurrences_cons in H.
    change (97%N :: (lit "pplicationIdentifier:" ++ rest))
      with (marker ++ rest) in H.
    rewrite starts_with_app in H. lia.
  - change ((c :: pre) ++ marker ++ rest) with (c :: (pre ++ marker ++ rest)) in *.
    rewrite occurrences_cons in H.
    pose proof (occurrences_after marker pre rest) as Hge.
    destruct (starts_with marker (c :: pre ++ marker ++ rest)) eqn:Hs; [lia|].
    cbn [re_search]. rewrite re_match_bundle, (starts_with_false _ _ Hs).
    apply IH. lia.
Qed.

Lemma key_at_match (key s id : str) :
  key_at key s = Some id <-> key_match key s id.
Proof.
  unfold key_at, key_match. split.
  - destruct (strip_prefix (key ++ lit ":") s) as [s'|] eqn:Hp; [|discriminate].
    apply strip_prefix_Some in Hp. rewrite <- app_assoc in Hp.
    destruct (take_run word_or_dot (lstrip s')) as [|c t] eqn:Ht; [discriminate|].
    intros [= <-].
    exists (take_run is_space s'), (drop_run word_or_dot (lstrip s')).
    split; [|split; [|split; [|split]]].
    + rewrite Hp, <- Ht. do 2 f_equal.
      rewrite take_drop_run, lstrip_drop_run. now rewrite take_drop_run.
    + apply take_run_Forall.
    + discriminate.
    + rewrite <- Ht. apply take_run_Forall.
    + apply drop_run_head.
  - intros [ws [tail [-> [Hws [Hne [Hid Hend]]]]]].
    rewrite (app_assoc key), strip_prefix_app.
    rewrite lstrip_spaces; [| assumption |].
    + rewrite take_run_all by assumption. destruct id; [congruence | reflexivity].
    + destruct id as [|c id]; [congruence|]. simpl. inversion Hid; subst.
      now apply id_not_space.
Qed.

Lemma key_entry_at (key s : str) :
  key_entry key s -> exists id, key_at key s = Some id.
Proof.
  intros [ws [id0 [tail [-> [Hws [Hne Hid]]]]]].
  unfold key_at. rewrite (app_assoc key), strip_prefix_app.
  destruct id0 as [|c id0]; [congruence|]. inversion Hid; subst.
  rewrite lstrip_spaces; [| assumption | simpl; now apply id_not_space].
  simpl. rewrite H1. eexists. reflexivity.
Qed.

Lemma first_key_first (key rest id : str) :
  first_key key rest = Some id -> first_key_match key rest id.
Proof.
  induction rest as [|c rest IH]; cbn [first_key].
  - destruct (key_at key []) eqn:E; [|discriminate]. intros [= ->].
    exists [], []. split; [reflexivity|]. split; [now apply key_at_match|].
    intros b1 b2 Hb Hne. destruct b1, b2; simpl in Hb; congruence.
  - destruct (key_at key (c :: rest)) eqn:E.
    + intros [= ->]. exists [], (c :: rest).
      split; [reflexivity|]. split; [now apply key_at_match|].
      intros b1 b2 Hb Hne. destruct b1, b2; simpl in Hb; congruence.
    + intros H. destruct (IH H) as [before [s [-> [Hm Hfirst]]]].
      exists (c :: before), s. split; [reflexivity|]. split; [assumption|].
      intros b1 b2 Hb Hne. destruct b1 as [|c' b1]; simpl in Hb.
      * subst b2. intros He. apply key_entry_at in He.
        destruct He as [id' He]. simpl in He. congruence.
      * injection Hb as -> Hb. now apply (Hfirst b1 b2).
Qed.

Lemma has_key_first (key rest : str) :
  has_key key rest -> exists id, first_key key rest = Some id.
Proof.
  intros [before [s [-> He]]]. apply key_entry_at in He. destruct He as [id He].
  induction before as [|c before IH].
  - exists id. simpl. destruct s; cbn [first_key]; now rewrite He.
  - change ((c :: before) ++ s) with (c :: (before ++ s)). cbn [first_key].
    destruct (key_at key (c :: before ++ s)) as [id'|]; [now exists id' | exact IH].
Qed.

Lemma first_key_id (key rest id : str) :
  first_key key rest = Some id -> all_id id.
Proof.
  intros H. apply first_key_first in H.
  destruct H as [_ [s [_ [[_ [_ [_ [_ [_ [Hid _]]]]]] _]]]]. exact Hid.
Qed.

(** C1: when the document has one marker [applicationIdentifier:] and what
    follows the marker holds an entry of each platform key (the key, a
    colon, optional white space, a nonempty run of word characters and
    dots), the parsing step of [read_bundle_ids] returns both
    identifiers, each the whole run of the first such entry of its key
    after the marker; when the document has no marker, it returns both
    identifiers as absent. *)
Theorem parse_bundle_ids_spec (doc : str) :
  (forall pre rest,
      doc = pre ++ marker ++ rest ->
      occurrences marker doc = 1 ->
      has_key (lit "iPhone") rest ->
      has_key (lit "Android") rest ->
      exists ios android,
        parse_bundle_ids doc = (Some ios, Some android)
        /\ first_key_match (lit "iPhone") rest ios
        /\ first_key_match (lit "Android") rest android)
  /\ (occurrences marker doc = 0 -> parse_bundle_ids doc = (None, None)).
Proof.
  split.
  - intros pre rest -> Hone Hios Handroid.
    destruct (has_key_first Hios) as [ios Hi].
    destruct (has_key_first Handroid) as [android Ha].
    exists ios, android. unfold parse_bundle_ids.
    rewrite !re_search_bundle_single by assumption.
    rewrite Hi, Ha, (strip_id (first_key_id _ _ Hi)), (strip_id (first_key_id _ _ Ha)).
    split; [reflexivity|]. split; now apply first_key_first.
  - intros Hnone. unfold parse_bundle_ids.
    now rewrite !re_search_bundle_none by assumption.
Qed.
End Extractor.

(** * The effects of the script *)

Section EffectFacts.
Context {U : Unicode} {O : OS}.

Lemma bind_Return {A B} (m : M A) (f : A -> M B) (st st' : state) (a : A) :
  m st = (Return a, st') -> bind m f st = f a st'.
Proof. unfold bind. now intros ->. Qed.

Lemma bind_SysExit {A B} (m : M A) (f : A -> M B) (st st' : state) (c : Z) :
  m st = (SysExit c, st') -> bind m f st = (SysExit c, st').
Proof. unfold bind. now intros ->. Qed.

Lemma trace_emit (e : event) (st : state) : trace (emit e st) = trace st ++ [e].
Proof. reflexivity. Qed.

Lemma trace_set_world (w : World) (st : state) : trace (set_world w st) = trace st.
Proof. reflexivity. Qed.

(** The state a command leaves. *)
Lemma run_quiet (cmd : str) (st : state) :
  run cmd false false st
  = (Return None,
     set_world (snd (os_subprocess (world st) (env_PATH st) cmd false))
               (emit (Subprocess cmd false false) st)).
Proof.
  unfold run, subprocess_run, shell, bind, ret.
  destruct (os_subprocess (world st) (env_PATH st) cmd false). reflexivity.
Qed.

Lemma run_unchecked_output (cmd : str) (st : state) :
  run cmd true false st
  = (Return (Some (strip (stdout
               (fst (os_subprocess (world st) (env_PATH st) cmd true))))),
     set_world (snd (os_subprocess (world st) (env_PATH st) cmd true))
               (emit (Subprocess cmd true false) st)).
Proof.
  unfold run, subprocess_run, shell, bind, ret.
  destruct (os_subprocess (world st) (env_PATH st) cmd true). reflexivity.
Qed.

Lemma py_int_accepts (digits : str) (st : state) :
  (N.of_nat (List.length digits) <= int_max_str_digits)%N ->
  py_int digits st = (Return (int_of_digits digits), st).
Proof. intros H. unfold py_int. apply N.leb_le in H. now rewrite H. Qed.

Lemma py_int_refuses (digits : str) (st : state) :
  (int_max_str_digits < N.of_nat (List.length digits))%N ->
  py_int digits st = (Raised (ValueError digits), st).
Proof. intros H. unfold py_int. apply N.leb_gt in H. now rewrite H. Qed.

Lemma command_exists_eq (name : str) (st : state) :
  command_exists name st
  = (Return (match os_which (world st) (env_PATH st) name with
             | Some _ => true
             | None => false
             end), st).
Proof. reflexivity. Qed.
End EffectFacts.

(** The trace of a state built from effects, as the old trace and a list. *)
Ltac trace_norm :=
  repeat (rewrite trace_emit || rewrite trace_set_world);
  rewrite <- ?app_assoc; cbn [app].

Section TripleRules.
Context {U : Unicode} {O : OS}.
Variable Q : event -> Prop.

Lemma emits_ret {A} (a : A) (post : A -> Prop) :
  post a -> emits (ret a) Q post.
Proof.
  intros Hp st. exists []. simpl. rewrite app_nil_r.
  repeat split; [constructor|]. now intros a' [= <-].
Qed.

Lemma emits_bind {A B} (m : M A) (f : A -> M B) (P : A -> Prop)
    (post : B -> Prop) :
  emits m Q P -> (forall a, P a -> emits (f a) Q post) ->
  emits (bind m f) Q post.
Proof.
  intros Hm Hf st. destruct (Hm st) as [e1 [Ht [HQ HP]]].
  unfold bind. destruct (m st) as [[a|c|e] st1]; simpl in *.
  - destruct (Hf a (HP a eq_refl) st1) as [e2 [Ht2 [HQ2 HP2]]].
    exists (e1 ++ e2). rewrite Ht2, Ht, app_assoc.
    repeat split; [now apply Forall_app | assumption].
  - exists e1. repeat split; try assumption. discriminate.
  - exists e1. repeat split; try assumption. discriminate.
Qed.

Lemma emits_print (text : str) (post : unit -> Prop) :
  Q (Print text) -> post tt -> emits (print text) Q post.
Proof.
  intros HQ Hp st. exists [Print text]. simpl.
  repeat split; [now repeat constructor|]. now intros [] _.
Qed.

Lemma emits_sys_exit {A} (c : Z) (post : A -> Prop) :
  emits (sys_exit c) Q post.
Proof.
  intros st. exists []. simpl. rewrite app_nil_r.
  repeat split; [constructor | discriminate].
Qed.

Lemma emits_which (name : str) (post : option str -> Prop) :
  (forall r, post r) -> emits (which name) Q post.
Proof.
  intros Hp st. exists []. simpl. rewrite app_nil_r.
  repeat split; [constructor|]. intros a _. apply Hp.
Qed.

Lemma emits_command_exists (name : str) (post : bool -> Prop) :
  (forall b, post b) -> emits (command_exists name) Q post.
Proof.
  intros Hp st. exists []. simpl. rewrite app_nil_r.
  repeat split; [constructor|]. intros a _. apply Hp.
Qed.

Lemma emits_ensure_path (post : unit -> Prop) :
  post tt -> emits _ensure_path Q post.
Proof.
  intros Hp st. exists []. simpl. rewrite app_nil_r.
  repeat split; [constructor|]. now intros [] _.
Qed.

Lemma emits_py_int (digits : str) (post : N -> Prop) :
  (forall n, post n) -> emits (py_int digits) Q post.
Proof.
  intros Hp st. exists []. rewrite app_nil_r. unfold py_int.
  destruct (_ <=? _)%N; (repeat split; [constructor|]); intros a _; apply Hp.
Qed.

(** A command adds its own event; with [capture] and without [check]
    the result is never [None]. *)
Lemma emits_run (cmd : str) (capture check : bool) (post : option str -> Prop) :
  Q (Subprocess cmd capture (if capture then false else check)) ->
  (forall r, (capture = true -> check = false -> r <> None) -> post r) ->
  emits (run cmd capture check) Q post.
Proof.
  intros HQ Hp st.
  exists [Subprocess cmd capture (if capture then false else check)].
  unfold run, subprocess_run, shell, bind, ret, raise.
  destruct capture; simpl;
    destruct (os_subprocess (world st) (env_PATH st) cmd _) as [r w]; simpl.
  - destruct (check && negb (returncode r =? 0)%Z) eqn:E; simpl;
      (repeat split; [now repeat constructor|]); intros a [= <-]; apply Hp.
    + intros _ ->. discriminate.
    + discriminate.
  - destruct (check && negb (returncode r =? 0)%Z); simpl;
      (repeat split; [now repeat constructor|]); try discriminate.
    intros a [= <-]. apply Hp. discriminate.
Qed.
End TripleRules.

(** * The prerequisite checks *)

(** One rule of the triples, chosen by the shape of the call. *)
Ltac triple_leaf :=
  lazymatch goal with
  | |- emits (ret _) _ _ => apply emits_ret; exact I
  | |- emits (sys_exit _) _ _ => apply emits_sys_exit
  | |- emits (print _) _ _ => apply emits_print; [split; reflexivity | exact I]
  | |- emits _ensure_path _ _ => apply emits_ensure_path; exact I
  | |- emits (which _) _ _ => apply emits_which; intros; exact I
  | |- emits (command_exists _) _ _ =>
      apply emits_command_exists; intros; exact I
  | |- emits (py_int _) _ _ => apply emits_py_int; intros; exact I
  | |- emits (run _ _ _) _ _ =>
      apply emits_run; [split; reflexivity | intros; exact I]
  end.

Ltac triple_step :=
  lazymatch goal with
  | |- emits (bind _ _) _ _ =>
      eapply emits_bind with (P := fun _ => True); [triple_leaf | intros ? _]
  | |- _ => triple_leaf
  end.

(** A case analysis on what the call branches on. *)
Ltac triple_case :=
  lazymatch goal with
  | |- emits (if ?c then _ else _) _ _ => destruct c
  | |- emits (match ?c with Some _ => _ | None => _ end) _ _ => destruct c
  end.

Section Prerequisites.
Context {U : Unicode} {O : OS}.

Lemma check_node_version_events :
  emits check_node_version prerequisite_event (fun _ => True).
Proof. unfold check_node_version. repeat first [triple_step | triple_case]. Qed.

Lemma install_firebase_events (firebase : bool) :
  emits
    (if negb firebase then
       npm <- command_exists (lit "npm") ;;
       if npm then
         print (lit "Installing Firebase CLI via npm...") ;;
         run (lit "npm install -g firebase-tools") false true ;;
         ret tt
       else
         brew <- (if is_darwin then command_exists (lit "brew") else ret false) ;;
         if brew then
           print (lit "Installing Firebase CLI via Homebrew...") ;;
           run (lit "brew install firebase-cli") false true ;;
           ret tt
         else
           print (lit "Error: Install Firebase CLI manually:") ;;
           print (lit "  npm install -g firebase-tools") ;;
           print (lit "  https://firebase.google.com/docs/cli") ;;
           sys_exit 1
     else ret tt)
    prerequisite_event (fun _ => True).
Proof.
  destruct firebase; cbn [negb]; [triple_step|].
  triple_step. triple_case; [repeat triple_step|].
  eapply emits_bind with (P := fun _ => True);
    [triple_case; triple_step | intros brew _].
  repeat first [triple_step | triple_case].
Qed.

(** The login check never takes its fallback: the result of the command,
    captured and unchecked, is not [None]. *)
Lemma check_prerequisites_events :
  emits check_prerequisites prerequisite_event (fun _ => True).
Proof.
  unfold check_prerequisites.
  eapply emits_bind; [apply check_node_version_events | intros _ _].
  triple_step.
  eapply emits_bind; [apply install_firebase_events | intros _ _].
  eapply emits_bind with (P := fun r => r <> None).
  - apply emits_run; [split; reflexivity|]. intros r Hr. now apply Hr.
  - intros [r|] Hr; [triple_step | congruence].
Qed.
End Prerequisites.

Section CommandRunner.
Context {U : Unicode} {O : OS}.

(** C6: with [capture], [run] returns the standard output of the command
    stripped of surrounding white space when the command exits with code
    zero, and returns [None] exactly when [check] is set and the exit
    code is not zero. *)
Theorem run_capture (cmd : str) (check : bool) (st : state) :
  let result := fst (os_subprocess (world st) (env_PATH st) cmd true) in
  (returncode result = 0%Z ->
   fst (run cmd true check st) = Return (Some (strip (stdout result))))
  /\ (fst (run cmd true check st) = Return None
      <-> check = true /\ returncode result <> 0%Z).
Proof.
  unfold run, subprocess_run, shell, bind, ret.
  destruct (os_subprocess (world st) (env_PATH st) cmd true) as [r w].
  cbn [fst snd andb negb].
  destruct (Z.eqb_spec (returncode r) 0) as [E|E]; destruct check; cbn.
  - split; [reflexivity|]. split; [discriminate | intros [_ H]; contradiction].
  - split; [reflexivity|]. split; [discriminate | intros [H _]; discriminate].
  - split; [contradiction|]. split; [now split | reflexivity].
  - split; [contradiction|]. split; [discriminate | intros [H _]; discriminate].
Qed.

(** C10: with [capture] and without [check], [run] returns the stripped
    standard output, never [None], whatever the exit code; so no run of
    [check_prerequisites] prints the login message or runs the login
    command. *)
Theorem login_fallback_unreachable :
  (forall cmd st,
      fst (run cmd true false st)
      = Return (Some (strip (stdout
                  (fst (os_subprocess (world st) (env_PATH st) cmd true))))))
  /\ (forall st,
         exists evs,
           trace (snd (check_prerequisites st)) = trace st ++ evs
           /\ Forall (fun e => login_fallback e = false) evs).
Proof.
  split.
  - intros cmd st. now rewrite run_unchecked_output.
  - intros st. destruct (check_prerequisites_events st) as [evs [Ht [HQ _]]].
    exists evs. split; [assumption|].
    revert HQ. apply Forall_impl. now intros e [H _].
Qed.
End CommandRunner.

(** * The fatal conditions *)

Section Fatal.
Context {U : Unicode} {O : OS}.

Lemma re_match_version (version digits : str) :
  version_text version digits ->
  re_match node_version_re version = Some digits.
Proof.
  intros [tail [-> [Hne [Hd Ht]]]].
  unfold re_match, node_version_re.
  change (lit "v" ++ digits ++ tail) with (118%N :: (digits ++ tail)).
  rewrite bt_Seq, bt_Chr, N.eqb_refl, bt_group_run.
  rewrite take_run_all by assumption.
  destruct digits; [congruence | reflexivity].
Qed.

Lemma version_text_truthy (version digits : str) :
  version_text version digits -> truthy (Some version) = true.
Proof. now intros [tail [-> _]]. Qed.

(** C7, amended: when [node] is on the search path, the version it
    reports has a major number below 20, written in no more digits than
    [int] converts, and [brew] is not on the search path,
    [check_node_version], and with it [check_prerequisites], prints
    that the version is too old, prints the error and ends the process
    with exit status 1; nothing else is done. *)
Theorem check_node_version_fatal (st : state) (node digits : str)
    (result : CompletedProcess) (w : World) :
  os_which (world st) (env_PATH st) (lit "node") = Some node ->
  node <> [] ->
  os_subprocess (world st) (env_PATH st) (lit "node --version") true
    = (result, w) ->
  version_text (strip (stdout result)) digits ->
  (N.of_nat (List.length digits) <= int_max_str_digits)%N ->
  (int_of_digits digits < 20)%N ->
  os_which w (env_PATH st) (lit "brew") = None ->
  exists st',
    check_node_version st = (SysExit 1, st')
    /\ check_prerequisites st = (SysExit 1, st')
    /\ trace st'
       = trace st
         ++ [Subprocess (lit "node --version") true false;
             Print (lit "Node.js " ++ strip (stdout result)
                    ++ lit " is too old for Firebase CLI (need >= v20).");
             Print (lit "Error: Please upgrade Node.js to >= v20.")].
Proof.
  intros Hnode Hne Hrun Hv Hlen Hlt Hbrew.
  assert (Hc : exists st',
    check_node_version st = (SysExit 1, st')
    /\ trace st'
       = trace st
         ++ [Subprocess (lit "node --version") true false;
             Print (lit "Node.js " ++ strip (stdout result)
                    ++ lit " is too old for Firebase CLI (need >= v20).");
             Print (lit "Error: Please upgrade Node.js to >= v20.")]).
  { unfold check_node_version.
    assert (Hw : which (lit "node") st = (Return (Some node), st))
      by (unfold which; now rewrite Hnode).
    erewrite bind_Return by exact Hw.
    assert (Ht : truthy (Some node) = true) by (destruct node; [congruence | reflexivity]).
    rewrite Ht. cbn [negb].
    erewrite bind_Return by apply run_unchecked_output.
    rewrite Hrun. cbn [fst snd].
    rewrite (version_text_truthy Hv). cbn [negb fmt].
    rewrite (re_match_version Hv).
    erewrite bind_Return by (apply py_int_accepts; exact Hlen).
    assert (Hm : (20 <=? int_of_digits digits)%N = false)
      by (apply N.leb_gt; exact Hlt).
    rewrite Hm.
    cbv [bind print command_exists which ret sys_exit].
    cbn [world env_PATH emit set_world]. rewrite Hbrew.
    eexists. split; [reflexivity|]. trace_norm. reflexivity. }
  destruct Hc as [st' [Hc Ht]]. exists st'.
  split; [assumption|]. split; [|assumption].
  unfold check_prerequisites. now apply bind_SysExit.
Qed.

Lemma check_node_version_absent (st : state) :
  os_which (world st) (env_PATH st) (lit "node") = None ->
  check_node_version st = (Return tt, st).
Proof.
  intros H. unfold check_node_version, bind, which. now rewrite H.
Qed.

Lemma read_bundle_ids_exit (st : state) :
  os_exists (world st) (path_str os_system settings_path) = false ->
  read_bundle_ids st = (SysExit 1, emit (Print settings_error) st).
Proof.
  intros H. unfold read_bundle_ids, bind, path_exists. now rewrite H.
Qed.

(** With the settings document in place [read_bundle_ids] returns what
    its parsing step finds in the text of the document. *)
Lemma read_bundle_ids_returns (st : state) :
  os_exists (world st) (path_str os_system settings_path) = true ->
  fst (read_bundle_ids st)
  = Return (parse_bundle_ids
              (os_read_text (world st) (path_str os_system settings_path))).
Proof.
  intros H. unfold read_bundle_ids, bind at 1, path_exists. rewrite H.
  cbn [negb]. unfold bind at 1, read_text.
  destruct (parse_bundle_ids _) as [ios android].
  destruct (negb (truthy ios) || negb (truthy android)); reflexivity.
Qed.

(** C8: when the settings document does not exist, [read_bundle_ids]
    prints a diagnostic and ends the process with exit status 1; in
    [main] this happens after the prerequisite checks and before
    anything is provisioned or generated. *)
Theorem read_bundle_ids_missing (st : state) :
  os_exists (world st) (path_str os_system settings_path) = false ->
  read_bundle_ids st = (SysExit 1, emit (Print settings_error) st)
  /\ forall (argv : list str) (st0 : state),
       2 <= List.length argv ->
       check_prerequisites
         (emit (Print (lit "Setting up CI/CD for " ++ nth 1 argv []
                       ++ lit "..." ++ nl)) st0)
         = (Return tt, st) ->
       main argv st0 = (SysExit 1, emit (Print settings_error) st)
       /\ exists evs,
            trace (emit (Print settings_error) st) = trace st0 ++ evs
            /\ Forall (fun e => provisions e = false) evs.
Proof.
  intros Hmissing. split; [now apply read_bundle_ids_exit|].
  intros argv st0 Hargv Hpre. split.
  - unfold main.
    assert (Hlen : (List.length argv <? 2) = false) by (apply Nat.ltb_ge; lia).
    rewrite Hlen.
    unfold bind at 1, print at 1.
    erewrite bind_Return by exact Hpre.
    apply bind_SysExit. now apply read_bundle_ids_exit.
  - destruct (check_prerequisites_events
                (emit (Print (lit "Setting up CI/CD for " ++ nth 1 argv []
                              ++ lit "..." ++ nl)) st0)) as [evs [Ht [HQ _]]].
    rewrite Hpre in Ht. cbn [snd] in Ht.
    exists ([Print (lit "Setting up CI/CD for " ++ nth 1 argv []
                    ++ lit "..." ++ nl)] ++ evs ++ [Print settings_error]).
    split.
    + rewrite trace_emit, Ht, trace_emit. now rewrite <- !app_assoc.
    + apply Forall_app. split; [now repeat constructor|].
      apply Forall_app. split; [|now repeat constructor].
      revert HQ. apply Forall_impl. now intros e [_ H].
Qed.
End Fatal.

(** * Provisioning *)

Section ProvisioningFacts.
Context {U : Unicode} {O : OS}.

Lemma performs_ret {A} (a : A) : performs (ret a) a [].
Proof. intros st. simpl. now rewrite app_nil_r. Qed.

Lemma performs_print (text : str) : performs (print text) tt [Print text].
Proof. intros st. now split. Qed.

Lemma performs_mkdir (path : str) : performs (mkdir path) tt [Mkdir path].
Proof. intros st. now split. Qed.

Lemma performs_run (cmd : str) :
  performs (run cmd false false) None [Subprocess cmd false false].
Proof. intros st. rewrite run_quiet. now split. Qed.

Lemma performs_bind {A B} (m : M A) (f : A -> M B) (a : A) (b : B)
    (e1 e2 : list event) :
  performs m a e1 -> performs (f a) b e2 -> performs (bind m f) b (e1 ++ e2).
Proof.
  intros Hm Hf st. destruct (Hm st) as [Ha Ht]. unfold bind.
  destruct (m st) as [o st1]. simpl in Ha, Ht. subst o.
  destruct (Hf st1) as [Hb Ht']. split; [assumption|].
  now rewrite Ht', Ht, app_assoc.
Qed.

Lemma performs_bind_some {A B X} (m : M A) (f : A -> M B) (a : A) (b : B)
    (e1 : list event) (e2 : X -> list event) :
  performs m a e1 -> performs_some (f a) b e2 ->
  performs_some (bind m f) b (fun x => e1 ++ e2 x).
Proof.
  intros Hm Hf st. destruct (Hm st) as [Ha Ht]. unfold bind.
  destruct (m st) as [o st1]. simpl in Ha, Ht. subst o.
  destruct (Hf st1) as [x [Hb Ht']]. exists x. split; [assumption|].
  now rewrite Ht', Ht, app_assoc.
Qed.

Lemma register_ios_performs (ios : option str) (project_id : str) :
  performs
    (if truthy ios then
       print (lit "Registering iOS app (" ++ fmt ios ++ lit ")...") ;;
       run (register_ios_cmd (fmt ios) project_id) false false ;;
       ret tt
     else ret tt)
    tt (register_ios_events ios project_id).
Proof.
  unfold register_ios_events. destruct (truthy ios); [|apply performs_ret].
  apply (performs_bind _ (performs_print _)).
  apply (performs_bind (e2 := []) _ (performs_run _)), performs_ret.
Qed.

Lemma register_android_performs (android : option str) (project_id : str) :
  performs
    (if truthy android then
       print (lit "Registering Android app (" ++ fmt android ++ lit ")...") ;;
       run (register_android_cmd (fmt android) project_id) false false ;;
       ret tt
     else ret tt)
    tt (register_android_events android project_id).
Proof.
  unfold register_android_events. destruct (truthy android); [|apply performs_ret].
  apply (performs_bind _ (performs_print _)).
  apply (performs_bind (e2 := []) _ (performs_run _)), performs_ret.
Qed.

Lemma grant_performs (project_id : str) :
  performs_some
    (gcloud <- command_exists (lit "gcloud") ;;
     if gcloud then
       run (grant_role_cmd project_id) false false ;;
       ret tt
     else print grant_warning)
    tt (fun gcloud => [grant_event project_id gcloud]).
Proof.
  intros st. erewrite bind_Return by apply command_exists_eq.
  destruct (os_which (world st) (env_PATH st) (lit "gcloud")).
  - exists true.
    exact (performs_bind (e2 := []) _ (performs_run _) (performs_ret tt) st).
  - exists false. exact (performs_print grant_warning st).
Qed.

(** The effects of [setup_firebase], in order. *)
Lemma setup_firebase_trace (game_name project_id : str)
    (ios android : option str) :
  performs_some (setup_firebase game_name project_id ios android) tt
    (fun gcloud =>
       create_events game_name project_id
       ++ register_ios_events ios project_id
       ++ register_android_events android project_id
       ++ [Mkdir (path_str os_system settings_dir);
           Print (lit "Downloading GoogleService-Info.plist...");
           Subprocess (download_ios_cmd project_id) false false;
           Print (lit "Downloading google-services.json...");
           Subprocess (download_android_cmd project_id) false false;
           Print (lit "Adding CI service account to Firebase project...");
           grant_event project_id gcloud]).
Proof.
  unfold setup_firebase.
  apply (performs_bind_some _ (performs_print _)).
  apply (performs_bind_some _ (performs_run _)).
  apply (performs_bind_some _ (register_ios_performs ios project_id)).
  apply (performs_bind_some _ (register_android_performs android project_id)).
  apply (performs_bind_some _ (performs_mkdir _)).
  apply (performs_bind_some _ (performs_print _)).
  apply (performs_bind_some _ (performs_run _)).
  apply (performs_bind_some _ (performs_print _)).
  apply (performs_bind_some _ (performs_run _)).
  apply (performs_bind_some _ (performs_print _)).
  apply grant_performs.
Qed.
End ProvisioningFacts.

Lemma occurrences_suffix (w a s : str) :
  occurrences w (a ++ s) = 0 -> occurrences w s = 0.
Proof.
  induction a as [|c a IH]; [trivial|].
  change ((c :: a) ++ s) with (c :: (a ++ s)). rewrite occurrences_cons.
  intros H. apply IH. lia.
Qed.

Ltac in_list := cbn [In]; repeat first [left; reflexivity | right].

Section WithoutAndroid.
Context {U : Unicode} {O : OS}.

Lemma first_key_absent (key s : str) :
  occurrences (key ++ lit ":") s = 0 -> first_key key s = None.
Proof.
  induction s as [|c s IH]; intros H; cbn [first_key]; unfold key_at;
    rewrite (starts_with_false _ _ (occurrences_none_starts _ _ H));
    [reflexivity|].
  apply IH. rewrite occurrences_cons in H. lia.
Qed.

Lemma re_search_absent_key (key s : str) :
  occurrences (key ++ lit ":") s = 0 -> re_search (bundle_id_re key) s = None.
Proof.
  induction s as [|c s IH]; intros H; cbn [re_search]; rewrite re_match_bundle.
  - destruct (strip_prefix marker []) as [s'|] eqn:E; [|reflexivity].
    apply strip_prefix_Some in E. rewrite E in H.
    now rewrite (first_key_absent _ _ (occurrences_suffix _ _ _ H)).
  - destruct (strip_prefix marker (c :: s)) as [s'|] eqn:E.
    + apply strip_prefix_Some in E. pose proof H as H'. rewrite E in H'.
      rewrite (first_key_absent _ _ (occurrences_suffix _ _ _ H')).
      apply IH. rewrite occurrences_cons in H. lia.
    + apply IH. rewrite occurrences_cons in H. lia.
Qed.

(** A group the search returns is an identifier. *)
Lemma re_search_bundle_id (key s g : str) :
  re_search (bundle_id_re key) s = Some g -> g <> [] /\ all_id g.
Proof.
  assert (Hk : forall rest, first_key key rest = Some g -> g <> [] /\ all_id g).
  { intros rest H. apply first_key_first in H.
    destruct H as [_ [t [_ [[_ [_ [_ [_ [Hne [Hid _]]]]]] _]]]]. now split. }
  induction s as [|c s IH]; cbn [re_search]; rewrite re_match_bundle.
  - destruct (strip_prefix marker []) as [s'|]; [|discriminate].
    destruct (first_key key s') eqn:E; [|discriminate].
    intros [= ->]. now apply (Hk s').
  - destruct (strip_prefix marker (c :: s)) as [s'|]; [|exact IH].
    destruct (first_key key s') eqn:E; [|exact IH].
    intros [= ->]. now apply (Hk s').
Qed.

Lemma parse_bundle_ids_ios (doc id : str) (android : option str) :
  parse_bundle_ids doc = (Some id, android) ->
  truthy (Some id) = true.
Proof.
  unfold parse_bundle_ids.
  destruct (re_search (bundle_id_re (lit "iPhone")) doc) as [g|] eqn:E;
    [|discriminate].
  apply re_search_bundle_id in E. destruct E as [Hne Hid].
  rewrite (strip_id Hid). intros [= <- _]. destruct g; [congruence | reflexivity].
Qed.

(** C4, amended: when the settings document has no [Android:] key, the
    extractor reports the Android identifier absent and [setup_firebase]
    skips the registration of the Android app, but still attempts the
    download of the Android config artifact; the download of the iOS
    config artifact is attempted, and so is the registration of the iOS
    app when the extractor found the iOS identifier. *)
Theorem setup_firebase_without_android (doc game_name project_id : str)
    (st : state) :
  occurrences (lit "Android:") doc = 0 ->
  exists ios evs,
    parse_bundle_ids doc = (ios, None)
    /\ fst (setup_firebase game_name project_id ios None st) = Return tt
    /\ trace (snd (setup_firebase game_name project_id ios None st))
       = trace st ++ evs
    /\ Forall (fun e => runs_command (lit "firebase apps:create android") e
                        = false) evs
    /\ In (Subprocess (download_android_cmd project_id) false false) evs
    /\ In (Subprocess (download_ios_cmd project_id) false false) evs
    /\ (forall id, ios = Some id ->
          In (Subprocess (register_ios_cmd id project_id) false false) evs).
Proof.
  intros Hnone.
  assert (Hparse : parse_bundle_ids doc = (fst (parse_bundle_ids doc), None)).
  { unfold parse_bundle_ids.
    now rewrite (re_search_absent_key (lit "Android") doc Hnone). }
  set (ios := fst (parse_bundle_ids doc)) in *.
  destruct (setup_firebase_trace game_name project_id ios None st)
    as [gcloud [Hret Htrace]].
  exists ios. eexists. split; [exact Hparse|]. split; [exact Hret|].
  split; [exact Htrace|].
  assert (Hl : runs_command (lit "firebase apps:create android")
                 (grant_event project_id gcloud) = false)
    by (destruct gcloud; reflexivity).
  unfold create_events, register_android_events, register_ios_events.
  cbn [truthy app].
  destruct ios as [id|] eqn:Hios.
  - rewrite (parse_bundle_ids_ios Hparse). cbn [app fmt].
    split; [repeat (constructor; [first [exact Hl | reflexivity]|]); constructor|].
    split; [in_list|]. split; [in_list|].
    intros id' [= <-]. in_list.
  - cbn [truthy app].
    split; [repeat (constructor; [first [exact Hl | reflexivity]|]); constructor|].
    split; [in_list|]. split; [in_list|]. discriminate.
Qed.

(** C5: in every run of [setup_firebase], whatever the identifiers and
    whatever the commands answer, the output directory is created, then
    the download of the iOS config artifact is attempted, then the
    download of the Android config artifact, and the call returns. *)
Theorem setup_firebase_downloads (game_name project_id : str)
    (ios android : option str) (st : state) :
  exists e1 e2 e3 e4,
    fst (setup_firebase game_name project_id ios android st) = Return tt
    /\ trace (snd (setup_firebase game_name project_id ios android st))
       = trace st ++ e1
         ++ [Mkdir (path_str os_system settings_dir)] ++ e2
         ++ [Subprocess (download_ios_cmd project_id) false false] ++ e3
         ++ [Subprocess (download_android_cmd project_id) false false] ++ e4.
Proof.
  destruct (setup_firebase_trace game_name project_id ios android st)
    as [gcloud [Hret Htrace]].
  exists (create_events game_name project_id
          ++ register_ios_events ios project_id
          ++ register_android_events android project_id),
    [Print (lit "Downloading GoogleService-Info.plist...")],
    [Print (lit "Downloading google-services.json...")],
    [Print (lit "Adding CI service account to Firebase project...");
     grant_event project_id gcloud].
  split; [exact Hret|]. rewrite Htrace, <- !app_assoc. reflexivity.
Qed.
End WithoutAndroid.

(** * The project slug *)

Lemma replace_space_hyphen (s : str) :
  replace (lit " ") (lit "-") s = map hyphenate s.
Proof.
  change (replace (lit " ") (lit "-") s)
    with (replace_nonempty [32%N] [45%N] s 0).
  induction s as [|c s IH]; [reflexivity|].
  cbn [replace_nonempty strip_prefix map]. unfold hyphenate at 1.
  rewrite (N.eqb_sym 32 c). destruct (c =? 32)%N; simpl; now rewrite IH.
Qed.

Section Slug.
Context {U : Unicode}.

(** C9: the slug is a function of the game name alone: the tag [hcg-],
    then the name in lower case with every space replaced by a hyphen;
    for a name of ASCII characters that is the name with its capital
    letters shifted and its spaces replaced; [Space Game] gives
    [hcg-space-game] and [ALLCAPS] gives [hcg-allcaps]. *)
Theorem project_slug_spec :
  (forall name, project_slug name = lit "hcg-" ++ map hyphenate (lower name))
  /\ (forall name, forallb is_ascii name = true ->
        project_slug name
        = lit "hcg-" ++ map (fun c => hyphenate (ascii_lower c)) name)
  /\ project_slug (lit "Space Game") = lit "hcg-space-game"
  /\ project_slug (lit "ALLCAPS") = lit "hcg-allcaps".
Proof.
  assert (H : forall name,
             project_slug name = lit "hcg-" ++ map hyphenate (lower name)).
  { intros name. unfold project_slug. now rewrite replace_space_hyphen. }
  split; [exact H|]. split; [|split; reflexivity].
  intros name Ha. rewrite H. unfold lower. rewrite Ha. now rewrite map_map.
Qed.
End Slug.

(** * The command runner, beyond its captured output *)

Section Strip.
Context {U : Unicode}.

Lemma lstrip_head (s : str) :
  match lstrip s with [] => True | c :: _ => is_space c = false end.
Proof. rewrite lstrip_drop_run. apply drop_run_head. Qed.

Lemma lstrip_app_last (a : str) (c : char) :
  is_space c = false -> lstrip (a ++ [c]) = lstrip a ++ [c].
Proof.
  intros Hc. induction a as [|x a IH]; simpl.
  - now rewrite Hc.
  - destruct (is_space x); [exact IH | reflexivity].
Qed.

Lemma rstrip_cons (c : char) (t : str) :
  is_space c = false -> rstrip (c :: t) = c :: rstrip t.
Proof.
  intros Hc. unfold rstrip. simpl rev.
  rewrite lstrip_app_last by exact Hc. rewrite rev_app_distr. reflexivity.
Qed.

Lemma strip_trimmed (s : str) : trimmed (strip s).
Proof.
  unfold strip. pose proof (lstrip_head s) as Hh.
  destruct (lstrip s) as [|c t].
  - split; intros x u E; [discriminate | now destruct u].
  - rewrite rstrip_cons by exact Hh. split.
    + now intros x u [= <- _].
    + intros x u E. rewrite <- rstrip_cons in E by exact Hh. unfold rstrip in E.
      apply (f_equal (@rev char)) in E.
      rewrite rev_involutive, rev_app_distr in E. simpl in E.
      pose proof (lstrip_head (rev (c :: t))) as Hl. simpl in Hl. now rewrite E in Hl.
Qed.

Lemma trimmed_strip (s : str) : trimmed s -> strip s = s.
Proof.
  intros [Hh Ht]. unfold strip.
  assert (Hl : forall u, (forall c t, u = c :: t -> is_space c = false) ->
                    lstrip u = u).
  { intros [|c t] H; simpl; [reflexivity|]. now rewrite (H c t eq_refl). }
  rewrite (Hl s Hh). unfold rstrip. rewrite Hl; [apply rev_involutive|].
  intros c t E. apply (Ht c (rev t)).
  rewrite <- (rev_involutive s), E. reflexivity.
Qed.
End Strip.

Section RunMore.
Context {U : Unicode} {O : OS}.

(** Without [capture], [run] records the command and returns [None]
    when [check] is unset or the exit code is zero; with [check] and a
    non-zero exit code it raises [CalledProcessError] with that code and
    that command. *)
Lemma run_no_capture (cmd : str) (check : bool) (st : state) :
  let answer := os_subprocess (world st) (env_PATH st) cmd false in
  let code := returncode (fst answer) in
  trace (snd (run cmd false check st))
    = trace st ++ [Subprocess cmd false check]
  /\ (check = false \/ code = 0%Z -> fst (run cmd false check st) = Return None)
  /\ (check = true -> code <> 0%Z ->
      fst (run cmd false check st) = Raised (CalledProcessError code cmd)).
Proof.
  unfold run, subprocess_run, shell, bind, ret, raise. cbn [fst snd].
  destruct (Z.eqb_spec
              (returncode (fst (os_subprocess (world st) (env_PATH st) cmd false)))
              0) as [E|E]; destruct check; cbn;
    (split; [reflexivity|]); split; try reflexivity; try congruence;
    intros [H|H]; congruence.
Qed.

(** X1: a string that [run] returns with [capture] neither begins nor
    ends with white space, and stripping it again changes nothing. *)
Theorem run_capture_trimmed (cmd : str) (check : bool) (st : state) (s : str) :
  fst (run cmd true check st) = Return (Some s) ->
  trimmed s /\ strip s = s.
Proof.
  unfold run, subprocess_run, shell, bind, ret. cbn [fst snd andb negb].
  destruct (check && _); cbn; intros [= <-].
  split; [apply strip_trimmed | apply trimmed_strip, strip_trimmed].
Qed.
End RunMore.

(** * The search path, entry by entry *)

Lemma split_cons_shape (c : char) (s : str) : exists w ws, split c s = w :: ws.
Proof.
  destruct s as [|x s]; simpl; [now eexists; eexists|].
  destruct (x =? c)%N; [now eexists; eexists|].
  destruct (split c s); now eexists; eexists.
Qed.

(** Joining the entries of a text gives the text back. *)
Lemma join_split (c : char) (s : str) : join [c] (split c s) = s.
Proof.
  induction s as [|x s IH]; [reflexivity|]. simpl split.
  destruct (split_cons_shape c s) as [w [ws E]]. rewrite E in *.
  destruct (N.eqb_spec x c) as [->|Hne].
  - change (join [c] ([] :: w :: ws)) with ([] ++ [c] ++ join [c] (w :: ws)).
    now rewrite IH.
  - destruct ws as [|w' ws]; simpl in *; now rewrite IH.
Qed.

Lemma join_cons (c : char) (w : str) (l : list str) :
  l <> [] -> join [c] (w :: l) = w ++ [c] ++ join [c] l.
Proof. destruct l; [congruence | reflexivity]. Qed.

Lemma count_occ_not_in_zero (l : list str) (p : str) :
  ~ In p l -> count_occ (list_eq_dec N.eq_dec) l p = 0.
Proof. apply count_occ_not_In. Qed.

Section SearchPathEntries.
Context {O : OS}.

Lemma ensure_path_split (st : state) :
  (forall h, os_userhome (world st) = Some h -> no_sep (pathsep os_system) h) ->
  path_entries (snd (_ensure_path st)) = priority ++ remaining st ++ missing st.
Proof.
  intros Hhome. rewrite ensure_path_eq. unfold path_entries, getenv_PATH.
  cbn [snd env_PATH]. apply split_join; [discriminate|].
  apply Forall_app. split; [apply priority_no_sep|].
  apply Forall_app. split; [apply remaining_no_sep|].
  apply Forall_forall. intros p Hp. apply missing_extra in Hp.
  revert p Hp. apply Forall_forall, extra_no_sep, Hhome.
Qed.

(** X2: when the home directory holds no path separator, the entries of
    the search path after [_ensure_path] are the priority directories,
    the old entries that are not priority directories and the missing
    extra directories; so every priority directory is there exactly
    once, however often the old path had it, every extra directory is
    there, and no entry of the old path is lost. *)
Theorem ensure_path_entries (st : state) :
  (forall h, os_userhome (world st) = Some h -> no_sep (pathsep os_system) h) ->
  let entries := path_entries (snd (_ensure_path st)) in
  entries = priority ++ remaining st ++ missing st
  /\ (forall p, In p priority ->
        count_occ (list_eq_dec N.eq_dec) entries p = 1)
  /\ (forall e, In e (extra os_system (os_userhome (world st))) -> In e entries)
  /\ (forall p, In p (path_entries st) -> In p entries).
Proof.
  intros Hhome entries. unfold entries. rewrite ensure_path_split by exact Hhome.
  split; [reflexivity|]. split; [|split].
  - intros p Hp. rewrite !count_occ_app.
    rewrite (count_occ_not_in_zero (remaining st)).
    2:{ intros H. apply remaining_not_priority in H. contradiction. }
    rewrite (count_occ_not_in_zero (missing st)).
    2:{ intros H. apply missing_extra, extra_not_priority in H. contradiction. }
    destruct Hp as [<-|[<-|[]]]; reflexivity.
  - intros e He. apply in_or_app. right. now apply extra_in_parts.
  - intros p Hp. apply in_or_app.
    destruct (mem p priority) eqn:E; [left; now apply mem_In|].
    right. apply in_or_app. left. apply filter_In. split; [exact Hp|].
    now rewrite E.
Qed.

(** X3: when no entry of the old path is a priority directory and both
    extra directories are entries of it, [_ensure_path] puts the two
    priority directories in front of the old path and leaves the rest
    of the text as it was. *)
Theorem ensure_path_prepends (st : state) :
  (forall p, In p (path_entries st) -> ~ In p priority) ->
  (forall e, In e (extra os_system (os_userhome (world st))) ->
        In e (path_entries st)) ->
  env_PATH (snd (_ensure_path st))
  = Some (lit "/opt/homebrew/bin" ++ [pathsep os_system]
          ++ lit "/opt/homebrew/sbin" ++ [pathsep os_system]
          ++ getenv_PATH st).
Proof.
  intros Hnone Hextra. rewrite ensure_path_eq. cbn [snd env_PATH]. f_equal.
  assert (Hrem : remaining st = path_entries st).
  { unfold remaining. fold (path_entries st).
    apply forallb_filter_id, forallb_forall. intros p Hp.
    apply negb_true_iff, mem_false. now apply Hnone. }
  assert (Hmis : missing st = []).
  { unfold missing. rewrite Hrem.
    assert (Hall : forall e, In e (extra os_system (os_userhome (world st))) ->
              negb (mem e (path_entries st)) = false).
    { intros e He. apply negb_false_iff, mem_In. now apply Hextra. }
    revert Hall. generalize (extra os_system (os_userhome (world st))).
    induction l as [|e l IH]; intros Hall; simpl; [reflexivity|].
    rewrite (Hall e) by now left. apply IH. intros q Hq. apply Hall. now right. }
  rewrite Hrem, Hmis, app_nil_r.
  destruct (split_cons_shape (pathsep os_system) (getenv_PATH st)) as [w [ws E]].
  unfold path_entries. 
  change (priority ++ split (pathsep os_system) (getenv_PATH st))
    with (lit "/opt/homebrew/bin" :: lit "/opt/homebrew/sbin"
          :: split (pathsep os_system) (getenv_PATH st)).
  rewrite join_cons by discriminate.
  rewrite join_cons by (rewrite E; discriminate).
  now rewrite join_split.
Qed.
End SearchPathEntries.

(** * The extractor on any document *)

Lemma strip_prefix_shorter (w a b : str) :
  List.length w <= List.length a ->
  strip_prefix w (a ++ b) <> None -> strip_prefix w a <> None.
Proof.
  revert a. induction w as [|x w IH]; intros a Hlen H; [discriminate|].
  destruct a as [|c a]; [simpl in Hlen; lia|].
  simpl in *. destruct (x =? c)%N; [|congruence].
  apply IH; [lia | exact H].
Qed.

(** The marker does not overlap itself: an occurrence of the marker that
    starts inside the marker starts at its first character or after its
    last one. *)
Lemma marker_overlap (a l s rest : str) :
  marker = a ++ l -> marker ++ s = l ++ rest ->
  (a = [] /\ s = rest) \/ (l = [] /\ rest = marker ++ s).
Proof.
  intros E1 E2. unfold marker, lit in E1. cbn in E1.
  destruct a as [|x a].
  - left. split; [reflexivity|]. simpl in E1. subst l.
    now apply app_inv_head in E2.
  - right. cbn in E1. injection E1 as _ E1.
    repeat (destruct a as [|? a];
            [ cbn in E1; subst l;
              first [ split; [reflexivity | symmetry; exact E2]
                    | unfold marker, lit in E2; cbn in E2; discriminate E2 ]
            | cbn in E1; first [discriminate E1 | injection E1 as _ E1] ]).
Qed.

Section ExtractorGeneral.
Context {U : Unicode}.

Lemma key_match_entry (key s id : str) : key_match key s id -> key_entry key s.
Proof.
  intros [ws [tail [E [Hws [Hne [Hid _]]]]]]. now exists ws, id, tail.
Qed.

Lemma first_key_unique (key rest id : str) :
  first_key_match key rest id -> first_key key rest = Some id.
Proof.
  intros [before [s [-> [Hm Hfirst]]]].
  induction before as [|c before IH].
  - apply key_at_match in Hm. destruct s; cbn [app first_key]; now rewrite Hm.
  - change ((c :: before) ++ s) with (c :: (before ++ s)). cbn [first_key].
    destruct (key_at key (c :: before ++ s)) as [id'|] eqn:E.
    + exfalso. apply key_at_match, key_match_entry in E.
      exact (Hfirst [] (c :: before) eq_refl ltac:(discriminate) E).
    + apply IH. intros b1 b2 Hb Hne. apply (Hfirst (c :: b1) b2); [|exact Hne].
      now rewrite Hb.
Qed.

Lemma first_key_extracted (key rest : str) :
  extracted key rest (first_key key rest).
Proof.
  split.
  - intros id. split; [apply first_key_first|].
    intros H. symmetry. now apply first_key_unique in H.
  - split.
    + intros H Hk. apply has_key_first in Hk. destruct Hk as [id Hk]. congruence.
    + intros H. destruct (first_key key rest) as [id|] eqn:E; [|reflexivity].
      exfalso. apply H. apply first_key_first in E.
      destruct E as [before [s [-> [Hm _]]]].
      exists before, s. split; [reflexivity | now apply key_match_entry in Hm].
Qed.

Lemma first_key_suffix (key a s : str) :
  first_key key (a ++ s) = None -> first_key key s = None.
Proof.
  induction a as [|c a IH]; [trivial|].
  change ((c :: a) ++ s) with (c :: (a ++ s)). cbn [first_key].
  destruct (key_at key (c :: a ++ s)); [discriminate | exact IH].
Qed.

(** Where no marker is followed by an entry of the key, the search
    fails. *)
Lemma re_search_no_entry (key t : str) :
  (forall a s, t = a ++ marker ++ s -> first_key key s = None) ->
  re_search (bundle_id_re key) t = None.
Proof.
  induction t as [|c t IH]; intros H; cbn [re_search]; rewrite re_match_bundle.
  - destruct (strip_prefix marker []) as [s|] eqn:E; [|reflexivity].
    apply strip_prefix_Some in E. now rewrite (H [] s E).
  - destruct (strip_prefix marker (c :: t)) as [s|] eqn:E.
    + apply strip_prefix_Some in E. rewrite (H [] s E).
      apply IH. intros a s' ->. now apply (H (c :: a) s').
    + apply IH. intros a s' ->. now apply (H (c :: a) s').
Qed.

Lemma first_key_later_marker (key rest a s : str) :
  first_key key rest = None ->
  marker ++ rest = a ++ marker ++ s ->
  first_key key s = None.
Proof.
  intros Hnone E. apply app_eq_app in E. destruct E as [l [[E1 E2]|[E1 E2]]].
  - destruct (@marker_overlap a l s rest E1 E2) as [[_ ->]|[_ ->]]; [assumption|].
    now apply first_key_suffix in Hnone.
  - rewrite E2 in Hnone. now do 2 apply first_key_suffix in Hnone.
Qed.

(** The search is the search of the key in what follows the first
    marker. *)
Lemma re_search_first_marker (key pre rest : str) :
  occurrences marker (pre ++ removelast marker) = 0 ->
  re_search (bundle_id_re key) (pre ++ marker ++ rest) = first_key key rest.
Proof.
  induction pre as [|c pre IH]; intros H.
  - rewrite app_nil_l.
    change (marker ++ rest)
      with (97%N :: (lit "pplicationIdentifier:" ++ rest)).
    cbn [re_search].
    change (97%N :: (lit "pplicationIdentifier:" ++ rest))
      with (marker ++ rest) at 1.
    rewrite re_match_bundle, strip_prefix_app.
    destruct (first_key key rest) eqn:E; [reflexivity|].
    apply re_search_no_entry. intros a s Ha.
    apply (@first_key_later_marker key rest (97%N :: a) s E).
    change (marker ++ rest)
      with (97%N :: (lit "pplicationIdentifier:" ++ rest)).
    now rewrite Ha.
  - change ((c :: pre) ++ marker ++ rest) with (c :: (pre ++ marker ++ rest)).
    change ((c :: pre) ++ removelast marker)
      with (c :: (pre ++ removelast marker)) in H.
    rewrite occurrences_cons in H.
    assert (Hs : starts_with marker (c :: pre ++ marker ++ rest) = false).
    { destruct (starts_with marker (c :: pre ++ removelast marker)) eqn:Hs0; [lia|].
      unfold starts_with in *.
      destruct (strip_prefix marker (c :: pre ++ marker ++ rest)) eqn:E;
        [|reflexivity].
      exfalso.
      assert (Hn : strip_prefix marker
                     ((c :: pre ++ removelast marker) ++ [58%N] ++ rest) <> None).
      { replace ((c :: pre ++ removelast marker) ++ [58%N] ++ rest)
          with (c :: pre ++ marker ++ rest);
          [rewrite E; discriminate|].
        change ((c :: pre ++ removelast marker) ++ [58%N] ++ rest)
          with (c :: ((pre ++ removelast marker) ++ [58%N] ++ rest)).
        rewrite <- app_assoc. reflexivity. }
      apply strip_prefix_shorter in Hn.
      - destruct (strip_prefix marker (c :: pre ++ removelast marker));
          congruence.
      - change (List.length marker) with 22. cbn [List.length].
        rewrite length_app.
        change (List.length (removelast marker)) with 21. lia. }
    cbn [re_search]. rewrite re_match_bundle, (starts_with_false _ _ Hs).
    apply IH. lia.
Qed.

(** X4: whatever the number of markers, each identifier the parsing step
    reports is that of the first entry of its key after the first
    marker, and it is absent exactly when no entry of the key follows
    the first marker; the text before the first marker plays no part. *)
Theorem parse_after_first_marker (doc pre rest : str) :
  doc = pre ++ marker ++ rest ->
  occurrences marker (pre ++ removelast marker) = 0 ->
  extracted (lit "iPhone") rest (fst (parse_bundle_ids doc))
  /\ extracted (lit "Android") rest (snd (parse_bundle_ids doc)).
Proof.
  intros -> Hfirst. unfold parse_bundle_ids. cbn [fst snd].
  rewrite !re_search_first_marker by assumption.
  assert (H : forall key,
             extracted key rest
               match first_key key rest with
               | Some g => Some (strip g)
               | None => None
               end).
  { intros key. pose proof (first_key_extracted key rest) as He.
    destruct (first_key key rest) as [g|] eqn:E; [|exact He].
    now rewrite (strip_id (first_key_id _ _ E)). }
  split; apply H.
Qed.

Lemma id_shell_safe (c : char) : word_or_dot c = true -> shell_safe c.
Proof.
  intros H. split; [now apply id_not_space|].
  repeat split; intros ->; discriminate.
Qed.

(** X5: an identifier the parsing step reports, for any document, is
    not empty and holds only word characters and dots; so it holds no
    white space, double quote, dollar, backquote or backslash, and the
    commands that put it between double quotes keep it in one piece. *)
Theorem parse_bundle_ids_wellformed (doc id : str) :
  fst (parse_bundle_ids doc) = Some id \/ snd (parse_bundle_ids doc) = Some id ->
  id <> [] /\ all_id id /\ Forall shell_safe id.
Proof.
  assert (H : forall key,
             match re_search (bundle_id_re key) doc with
             | Some g => Some (strip g)
             | None => None
             end = Some id ->
             id <> [] /\ all_id id /\ Forall shell_safe id).
  { intros key. destruct (re_search (bundle_id_re key) doc) as [g|] eqn:E;
      [|discriminate].
    apply re_search_bundle_id in E. destruct E as [Hne Hid].
    rewrite (strip_id Hid). intros [= <-]. split; [assumption|].
    split; [assumption|]. revert Hid. apply Forall_impl, id_shell_safe. }
  unfold parse_bundle_ids. cbn [fst snd]. intros [E|E]; revert E; apply H.
Qed.
End ExtractorGeneral.

(** * The prerequisite checks, branch by branch *)

Section NodeVersion.
Context {U : Unicode} {O : OS}.

Lemma take_run_not_nil (p : char -> bool) (s : str) (c : char) (t : str) :
  take_run p s = c :: t -> p c = true.
Proof.
  destruct s as [|x s]; simpl; [discriminate|].
  destruct (p x) eqn:E; [|discriminate]. now intros [= <- _].
Qed.

Lemma re_match_version_inv (version digits : str) :
  re_match node_version_re version = Some digits ->
  version_text version digits.
Proof.
  unfold re_match, node_version_re. rewrite bt_Seq, bt_Chr.
  destruct version as [|c v]; [discriminate|].
  destruct (N.eqb_spec c 118) as [->|]; [|discriminate].
  rewrite bt_group_run.
  destruct (take_run is_digit v) as [|d ds] eqn:E; [discriminate|].
  intros [= <-]. exists (drop_run is_digit v).
  split; [|split; [discriminate|split]].
  - change (lit "v" ++ (d :: ds) ++ drop_run is_digit v)
      with (118%N :: ((d :: ds) ++ drop_run is_digit v)).
    now rewrite <- E, take_drop_run.
  - rewrite <- E. apply take_run_Forall.
  - apply drop_run_head.
Qed.

(** The entries of the rebuilt search path begin with the priority
    directories. *)
Lemma ensure_path_priority_first (st : state) :
  exists rest, path_entries (snd (_ensure_path st)) = priority ++ rest.
Proof.
  rewrite ensure_path_eq. unfold path_entries, getenv_PATH. cbn [snd env_PATH].
  pose proof (priority_no_sep os_system) as Hp.
  inversion Hp as [|p1 l1 Hp1 Hp']; subst. inversion Hp' as [|p2 l2 Hp2 _]; subst.
  pose proof (ensure_path_parts_not_nil st) as Hne.
  change (priority ++ remaining st ++ missing st)
    with (lit "/opt/homebrew/bin" :: lit "/opt/homebrew/sbin"
          :: (remaining st ++ missing st)).
  rewrite split_join_cons by (assumption || discriminate).
  rewrite split_join_cons by assumption.
  eexists. reflexivity.
Qed.

(** X6: [check_node_version] returns without printing anything and
    without touching the search path when [node] is not on the search
    path, and when [node --version] does not answer [v], digits and a
    major number below 20: so when it prints nothing or something else
    than a version, and when the version is recent enough and written
    in no more digits than [int] converts. The only command run is
    [node --version]. *)
Theorem check_node_version_silent (st : state) :
  os_which (world st) (env_PATH st) (lit "node") = None
  \/ (forall digits,
        version_text
          (strip (stdout (fst (os_subprocess (world st) (env_PATH st)
                                 (lit "node --version") true)))) digits ->
        (N.of_nat (List.length digits) <= int_max_str_digits)%N
        /\ (20 <= int_of_digits digits)%N) ->
  exists st' evs,
    check_node_version st = (Return tt, st')
    /\ env_PATH st' = env_PATH st
    /\ trace st' = trace st ++ evs
    /\ Forall (fun e => e = Subprocess (lit "node --version") true false) evs.
Proof.
  intros Hcase. unfold check_node_version.
  erewrite bind_Return by reflexivity.
  assert (Hnone : exists st' evs,
             ret tt st = (Return tt, st')
             /\ env_PATH st' = env_PATH st
             /\ trace st' = trace st ++ evs
             /\ Forall (fun e => e = Subprocess (lit "node --version") true false)
                       evs).
  { exists st, []. split; [reflexivity|]. split; [reflexivity|].
    split; [now rewrite app_nil_r | constructor]. }
  destruct Hcase as [Hnode|Hv]; [rewrite Hnode; exact Hnone|].
  destruct (negb (truthy (os_which (world st) (env_PATH st) (lit "node"))));
    [exact Hnone|].
  erewrite bind_Return by apply run_unchecked_output.
  set (out := strip _) in *.
  set (st1 := set_world _ _).
  assert (Hdone : exists st' evs,
             ret tt st1 = (Return tt, st')
             /\ env_PATH st' = env_PATH st
             /\ trace st' = trace st ++ evs
             /\ Forall (fun e => e = Subprocess (lit "node --version") true false)
                       evs).
  { exists st1, [Subprocess (lit "node --version") true false].
    split; [reflexivity|]. split; [reflexivity|].
    split; [reflexivity | now repeat constructor]. }
  cbn [truthy negb fmt].
  destruct out as [|c v] eqn:Eout; [exact Hdone|]. cbn [negb].
  destruct (re_match node_version_re (c :: v)) as [digits|] eqn:Em;
    [|exact Hdone].
  apply re_match_version_inv, Hv in Em. destruct Em as [Hlen Em].
  erewrite bind_Return by (apply py_int_accepts; exact Hlen).
  apply N.leb_le in Em. rewrite Em.
  exact Hdone.
Qed.

(** X7: when [node] is on the search path, the version it reports has a
    major number below 20, written in no more digits than [int]
    converts, and [brew] is on the search path,
    [check_node_version] prints that the version is too old, runs the
    Homebrew upgrade without checking its exit code, rebuilds the
    search path and returns: the old version is not fatal, and the
    version is not read again. *)
Theorem check_node_version_upgrade (st : state) (node brew digits : str)
    (result : CompletedProcess) (w : World) :
  os_which (world st) (env_PATH st) (lit "node") = Some node ->
  node <> [] ->
  os_subprocess (world st) (env_PATH st) (lit "node --version") true
    = (result, w) ->
  version_text (strip (stdout result)) digits ->
  (N.of_nat (List.length digits) <= int_max_str_digits)%N ->
  (int_of_digits digits < 20)%N ->
  os_which w (env_PATH st) (lit "brew") = Some brew ->
  exists st',
    check_node_version st = (Return tt, st')
    /\ trace st'
       = trace st
         ++ [Subprocess (lit "node --version") true false;
             Print (lit "Node.js " ++ strip (stdout result)
                    ++ lit " is too old for Firebase CLI (need >= v20).");
             Print (lit "Upgrading Node.js via Homebrew...");
             Subprocess (lit "brew upgrade node || brew install node")
                        false false]
    /\ exists rest, path_entries st' = priority ++ rest.
Proof.
  intros Hnode Hne Hrun Hv Hlen Hlt Hbrew.
  unfold check_node_version.
  assert (Hw : which (lit "node") st = (Return (Some node), st))
    by (unfold which; now rewrite Hnode).
  erewrite bind_Return by exact Hw.
  assert (Ht : truthy (Some node) = true)
    by (destruct node; [congruence | reflexivity]).
  rewrite Ht. cbn [negb].
  erewrite bind_Return by apply run_unchecked_output.
  rewrite Hrun. cbn [fst snd].
  rewrite (version_text_truthy Hv). cbn [negb fmt].
  rewrite (re_match_version Hv).
  erewrite bind_Return by (apply py_int_accepts; exact Hlen).
  assert (Hm : (20 <=? int_of_digits digits)%N = false)
    by (apply N.leb_gt; exact Hlt).
  rewrite Hm.
  erewrite bind_Return by reflexivity.
  erewrite bind_Return by apply command_exists_eq.
  cbn [world env_PATH emit set_world]. rewrite Hbrew.
  erewrite bind_Return by reflexivity.
  erewrite bind_Return by apply run_quiet.
  match goal with
  | |- context [_ensure_path ?s] =>
      exists (snd (_ensure_path s));
      split; [now rewrite ensure_path_eq|];
      split; [|apply (ensure_path_priority_first s)]
  end.
  rewrite ensure_path_eq. cbn [snd trace]. trace_norm. reflexivity.
Qed.
(** X20: when [node] is on the search path and the version it reports
    has a major number of more digits than [int] converts, leading
    zeros counted, [check_node_version] stops on [ValueError] right
    after the command, whatever the number is: nothing is printed,
    nothing is upgraded, and [check_prerequisites] stops with it. *)
Theorem check_node_version_overlong (st : state) (node digits : str)
    (result : CompletedProcess) (w : World) :
  os_which (world st) (env_PATH st) (lit "node") = Some node ->
  node <> [] ->
  os_subprocess (world st) (env_PATH st) (lit "node --version") true
    = (result, w) ->
  version_text (strip (stdout result)) digits ->
  (int_max_str_digits < N.of_nat (List.length digits))%N ->
  exists st',
    check_node_version st = (Raised (ValueError digits), st')
    /\ check_prerequisites st = (Raised (ValueError digits), st')
    /\ world st' = w
    /\ trace st' = trace st ++ [Subprocess (lit "node --version") true false].
Proof.
  intros Hnode Hne Hrun Hv Hlen.
  assert (Hc : check_node_version st
               = (Raised (ValueError digits),
                  set_world w (emit (Subprocess (lit "node --version") true false)
                                 st))).
  { unfold check_node_version.
    assert (Hw : which (lit "node") st = (Return (Some node), st))
      by (unfold which; now rewrite Hnode).
    erewrite bind_Return by exact Hw.
    assert (Ht : truthy (Some node) = true)
      by (destruct node; [congruence | reflexivity]).
    rewrite Ht. cbn [negb].
    erewrite bind_Return by apply run_unchecked_output.
    rewrite Hrun. cbn [fst snd].
    rewrite (version_text_truthy Hv). cbn [negb fmt].
    rewrite (re_match_version Hv).
    unfold bind. rewrite py_int_refuses by exact Hlen. reflexivity. }
  eexists. split; [exact Hc|]. split.
  - unfold check_prerequisites, bind at 1. now rewrite Hc.
  - split; reflexivity.
Qed.
End NodeVersion.

Section PrerequisiteBranches.
Context {U : Unicode} {O : OS}.

(** X8: when the Firebase CLI is not on the search path, neither is
    [npm], and the system is not macOS or has no [brew], the script
    prints how to install the CLI and ends with exit status 1: outside
    macOS Homebrew is never used to install the CLI. *)
Theorem check_prerequisites_no_installer (st st1 : state) :
  check_node_version st = (Return tt, st1) ->
  os_which (world st1) (env_PATH st1) (lit "firebase") = None ->
  os_which (world st1) (env_PATH st1) (lit "npm") = None ->
  os_system <> Darwin
  \/ os_which (world st1) (env_PATH st1) (lit "brew") = None ->
  exists st',
    check_prerequisites st = (SysExit 1, st')
    /\ world st' = world st1
    /\ trace st'
       = trace st1
         ++ [Print (lit "Error: Install Firebase CLI manually:");
             Print (lit "  npm install -g firebase-tools");
             Print (lit "  https://firebase.google.com/docs/cli")].
Proof.
  intros Hnode Hfb Hnpm Hbrew. unfold check_prerequisites.
  erewrite bind_Return by exact Hnode.
  erewrite bind_Return by apply command_exists_eq. rewrite Hfb. cbn [negb].
  eexists. split.
  - apply bind_SysExit.
    erewrite bind_Return by apply command_exists_eq. rewrite Hnpm.
    assert (Hb : (if is_darwin then command_exists (lit "brew") else ret false) st1
                 = (Return false, st1)).
    { unfold is_darwin. destruct Hbrew as [Hs|Hb].
      - destruct os_system; [congruence | reflexivity | reflexivity].
      - destruct os_system; try reflexivity.
        rewrite command_exists_eq. now rewrite Hb. }
    erewrite bind_Return by exact Hb.
    reflexivity.
  - split; [reflexivity|]. trace_norm. reflexivity.
Qed.

(** X9: when the Firebase CLI is not on the search path, [npm] is, and
    the installation through [npm] exits with a non-zero code, the
    script does not go on: [CalledProcessError] is raised after the
    announcement and the command, before the login check. *)
Theorem check_prerequisites_install_failure (st st1 : state) (npm : str)
    (result : CompletedProcess) (w : World) :
  check_node_version st = (Return tt, st1) ->
  os_which (world st1) (env_PATH st1) (lit "firebase") = None ->
  os_which (world st1) (env_PATH st1) (lit "npm") = Some npm ->
  os_subprocess (world st1) (env_PATH st1)
    (lit "npm install -g firebase-tools") false = (result, w) ->
  returncode result <> 0%Z ->
  exists st',
    check_prerequisites st
    = (Raised (CalledProcessError (returncode result)
                 (lit "npm install -g firebase-tools")), st')
    /\ trace st'
       = trace st1
         ++ [Print (lit "Installing Firebase CLI via npm...");
             Subprocess (lit "npm install -g firebase-tools") false true].
Proof.
  intros Hnode Hfb Hnpm Hrun Hcode. unfold check_prerequisites.
  erewrite bind_Return by exact Hnode.
  erewrite bind_Return by apply command_exists_eq. rewrite Hfb. cbn [negb].
  assert (Hz : (returncode result =? 0)%Z = false) by now apply Z.eqb_neq.
  eexists. split.
  - unfold bind at 1.
    erewrite bind_Return by apply command_exists_eq. rewrite Hnpm.
    erewrite bind_Return by reflexivity.
    unfold bind at 1, run, subprocess_run, shell, bind, ret, raise.
    cbn [world env_PATH emit set_world fst snd]. rewrite Hrun.
    cbn [fst snd andb negb]. rewrite Hz. cbn. reflexivity.
  - trace_norm. reflexivity.
Qed.

Lemma run_checked_zero (cmd : str) (st : state) (result : CompletedProcess)
    (w : World) :
  os_subprocess (world st) (env_PATH st) cmd false = (result, w) ->
  returncode result = 0%Z ->
  run cmd false true st
  = (Return None, set_world w (emit (Subprocess cmd false true) st)).
Proof.
  intros Hrun Hcode. unfold run, subprocess_run, shell, bind, ret, raise.
  cbn [fst snd]. rewrite Hrun. cbn [fst snd andb]. rewrite Hcode.
  reflexivity.
Qed.

(** X10: when the Firebase CLI is not on the search path and its
    installation exits with code 0, through [npm] when [npm] is on the
    search path and else through Homebrew when the system is macOS and
    [brew] is on the search path, [check_prerequisites] goes on to the
    login check without looking for the CLI again, and returns. *)
Theorem check_prerequisites_installs (st st1 : state) (note cmd : str)
    (result : CompletedProcess) (w : World) :
  check_node_version st = (Return tt, st1) ->
  os_which (world st1) (env_PATH st1) (lit "firebase") = None ->
  (os_which (world st1) (env_PATH st1) (lit "npm") <> None
   /\ note = lit "Installing Firebase CLI via npm..."
   /\ cmd = lit "npm install -g firebase-tools")
  \/ (os_which (world st1) (env_PATH st1) (lit "npm") = None
      /\ os_system = Darwin
      /\ os_which (world st1) (env_PATH st1) (lit "brew") <> None
      /\ note = lit "Installing Firebase CLI via Homebrew..."
      /\ cmd = lit "brew install firebase-cli") ->
  os_subprocess (world st1) (env_PATH st1) cmd false = (result, w) ->
  returncode result = 0%Z ->
  exists st',
    check_prerequisites st = (Return tt, st')
    /\ trace st'
       = trace st1
         ++ [Print note; Subprocess cmd false true;
             Subprocess (lit "firebase projects:list") true false].
Proof.
  intros Hnode Hfb Hcase Hrun Hcode. unfold check_prerequisites.
  erewrite bind_Return by exact Hnode.
  erewrite bind_Return by apply command_exists_eq. rewrite Hfb. cbn [negb].
  assert (Hinstall :
            forall k : M unit,
              (print note ;; run cmd false true ;; k) st1
              = k (set_world w (emit (Subprocess cmd false true)
                                  (emit (Print note) st1)))).
  { intros k. erewrite bind_Return by reflexivity.
    erewrite bind_Return
      by (apply run_checked_zero with (result := result); [exact Hrun | exact Hcode]).
    reflexivity. }
  rewrite bind_Return
    with (a := tt)
         (st' := set_world w (emit (Subprocess cmd false true)
                                (emit (Print note) st1))).
  - erewrite bind_Return by apply run_unchecked_output.
    eexists. split; [reflexivity|]. trace_norm. reflexivity.
  - erewrite bind_Return by apply command_exists_eq.
    destruct Hcase as [[Hnpm [-> ->]] | [Hnpm [Hsys [Hbrew [-> ->]]]]].
    + destruct (os_which (world st1) (env_PATH st1) (lit "npm"));
        [|congruence].
      rewrite Hinstall. reflexivity.
    + rewrite Hnpm. unfold is_darwin. rewrite Hsys.
      erewrite bind_Return by apply command_exists_eq.
      destruct (os_which (world st1) (env_PATH st1) (lit "brew"));
        [|congruence].
      rewrite Hinstall. reflexivity.
Qed.
(** X11: with the Firebase CLI on the search path, the login check is
    one command, [firebase projects:list], whose exit code and output are
    ignored: whatever it answers, nothing is printed and
    [check_prerequisites] returns. *)
Theorem check_prerequisites_login_probe (st st1 : state) (firebase : str) :
  check_node_version st = (Return tt, st1) ->
  os_which (world st1) (env_PATH st1) (lit "firebase") = Some firebase ->
  exists st',
    check_prerequisites st = (Return tt, st')
    /\ env_PATH st' = env_PATH st1
    /\ trace st'
       = trace st1 ++ [Subprocess (lit "firebase projects:list") true false].
Proof.
  intros Hnode Hfb. unfold check_prerequisites.
  erewrite bind_Return by exact Hnode.
  erewrite bind_Return by apply command_exists_eq. rewrite Hfb. cbn [negb].
  erewrite bind_Return by reflexivity.
  erewrite bind_Return by apply run_unchecked_output.
  eexists. split; [reflexivity|]. split; reflexivity.
Qed.

Lemma parse_bundle_ids_not_empty (doc : str) :
  (forall id, fst (parse_bundle_ids doc) = Some id -> id <> [])
  /\ (forall id, snd (parse_bundle_ids doc) = Some id -> id <> []).
Proof.
  assert (H : forall key id,
             match re_search (bundle_id_re key) doc with
             | Some g => Some (strip g)
             | None => None
             end = Some id -> id <> []).
  { intros key id. destruct (re_search (bundle_id_re key) doc) as [g|] eqn:E;
      [|discriminate].
    apply re_search_bundle_id in E. destruct E as [Hne Hid].
    rewrite (strip_id Hid). now intros [= <-]. }
  unfold parse_bundle_ids. cbn [fst snd]. split; intros id; apply H.
Qed.

(** X12: when the settings document exists, [read_bundle_ids] returns
    what its parsing step finds in the text and changes nothing; it
    prints nothing when both identifiers are found, and else the
    warning followed by one line for each platform, with the identifier
    or [NOT FOUND]. *)
Theorem read_bundle_ids_found (st : state) :
  os_exists (world st) (path_str os_system settings_path) = true ->
  let ids := parse_bundle_ids
               (os_read_text (world st) (path_str os_system settings_path)) in
  exists st',
    read_bundle_ids st = (Return ids, st')
    /\ world st' = world st /\ env_PATH st' = env_PATH st
    /\ trace st' = trace st ++ missing_id_events (fst ids) (snd ids).
Proof.
  intros H ids. unfold read_bundle_ids.
  assert (He : path_exists (path_str os_system settings_path) st = (Return true, st))
    by (unfold path_exists; now rewrite H).
  erewrite bind_Return by exact He. cbn [negb].
  erewrite bind_Return by reflexivity. fold ids.
  destruct (parse_bundle_ids_not_empty
              (os_read_text (world st) (path_str os_system settings_path)))
    as [Hi Ha].
  fold ids in Hi, Ha.
  destruct ids as [[[|c i]|] [[|d a]|]]; cbn [fst snd] in *;
    try (exfalso; now apply (Hi [] eq_refl));
    try (exfalso; now apply (Ha [] eq_refl));
    unfold missing_id_events; cbn [truthy negb orb or_else];
    eexists; (split; [reflexivity|]); (split; [reflexivity|]);
    (split; [reflexivity|]); trace_norm; rewrite ?app_nil_r; reflexivity.
Qed.
End PrerequisiteBranches.

(** * The generated files and the driver *)


Section Generated.
Context {U : Unicode} {O : OS}.





End Generated.

Section Driver.
Context {U : Unicode} {O : OS}.



(** X14: with no game name on the command line the script prints its
    usage and ends with exit status 1; apart from the search path that
    the module rebuilds when it is loaded, nothing is looked up, run or
    written. *)
Theorem script_usage (argv : list str) (st : state) :
  List.length argv < 2 ->
  exists st',
    script argv st = (SysExit 1, st')
    /\ world st' = world st
    /\ trace st'
       = trace st
         ++ [Print (lit "Usage: python setup.py <GameName>");
             Print (lit "Run from the root of your Unity project.")].
Proof.
  intros Hlen. unfold script.
  erewrite bind_Return by apply ensure_path_eq.
  unfold main. apply Nat.ltb_lt in Hlen. rewrite Hlen.
  eexists. split; [reflexivity|]. split; [reflexivity|].
  trace_norm. reflexivity.
Qed.


(** X16: the commands [setup_firebase] runs are, in this order, the
    creation of the project, the registration of the iOS app when its
    identifier is not empty, that of the Android app when its identifier
    is not empty, the two downloads and the role grant; the role grant
    is left out exactly when the warning about [gcloud] is printed. No
    other command is run, and the call returns whatever they answer. *)
Theorem setup_firebase_commands (game_name project_id : str)
    (ios android : option str) (st : state) :
  exists evs gcloud,
    fst (setup_firebase game_name project_id ios android st) = Return tt
    /\ trace (snd (setup_firebase game_name project_id ios android st))
       = trace st ++ evs
    /\ commands evs
       = [create_project_cmd game_name project_id]
         ++ (if truthy ios then [register_ios_cmd (fmt ios) project_id] else [])
         ++ (if truthy android
             then [register_android_cmd (fmt android) project_id] else [])
         ++ [download_ios_cmd project_id; download_android_cmd project_id]
         ++ (if gcloud : bool then [grant_role_cmd project_id] else [])
    /\ (gcloud = false <-> In (Print grant_warning) evs).
Proof.
  destruct (setup_firebase_trace game_name project_id ios android st)
    as [gcloud [Hr Ht]].
  eexists. exists gcloud. split; [exact Hr|]. split; [exact Ht|].
  unfold create_events, register_ios_events, register_android_events,
    grant_event.
  split.
  - destruct (truthy ios), (truthy android), gcloud; reflexivity.
  - assert (Hfirst : forall a b : str,
               hd 0%N a <> hd 0%N b -> Print a <> Print b).
    { intros a b Hab [= E]. now rewrite E in Hab. }
    split.
    + intros ->. rewrite !in_app_iff. do 3 right.
      cbn [In]. do 6 right. left. reflexivity.
    + intros Hin. destruct gcloud; [exfalso|reflexivity].
      rewrite !in_app_iff in Hin.
      destruct (truthy ios), (truthy android); cbn [In] in Hin;
        repeat (destruct Hin as [Hin|Hin]);
        first [ contradiction
              | discriminate Hin
              | revert Hin; apply Hfirst; cbn; discriminate ].
Qed.
End Driver.

(** * The slug as a project name *)

Lemma in_range_ascii (lo hi c : N) :
  (hi < 128)%N -> in_range lo hi c = true -> is_ascii c = true.
Proof.
  unfold in_range, is_ascii. intros Hhi H. apply andb_true_iff in H.
  destruct H as [_ H]. apply N.leb_le in H. apply N.ltb_lt. lia.
Qed.

Lemma name_char_ascii (c : char) : name_char c = true -> is_ascii c = true.
Proof.
  unfold name_char. rewrite !orb_true_iff.
  intros [[[[H|H]|H]|H]|H];
    try (now apply in_range_ascii in H);
    apply N.eqb_eq in H; now subst.
Qed.

Lemma name_char_slug (c : char) :
  name_char c = true -> slug_char (hyphenate (ascii_lower c)) = true.
Proof.
  intros H. pose proof (name_char_ascii c H) as Ha.
  pose proof (ascii_forall
    (fun c => implb (name_char c) (slug_char (hyphenate (ascii_lower c))))
    eq_refl c Ha) as Hc.
  simpl in Hc. now rewrite H in Hc.
Qed.

Section SlugName.
Context {U : Unicode}.

(** X17: a slug holds no space, whatever the game name; for a game name
    of ASCII letters, digits, spaces and hyphens it holds only
    lower-case letters, digits and hyphens, which is what a cloud
    project name may hold, and it is four characters longer than the
    name. *)
Theorem project_slug_valid (name : str) :
  ~ In 32%N (project_slug name)
  /\ (forallb name_char name = true ->
      forallb slug_char (project_slug name) = true
      /\ List.length (project_slug name) = 4 + List.length name).
Proof.
  unfold project_slug. rewrite replace_space_hyphen. split.
  - intros H. apply in_app_or in H. destruct H as [H|H].
    + revert H. apply no_sep_check. reflexivity.
    + apply in_map_iff in H. destruct H as [c [Hc _]].
      unfold hyphenate in Hc. destruct (N.eqb_spec c 32); congruence.
  - intros Hname.
    assert (Ha : forallb is_ascii name = true).
    { apply forallb_forall. intros c Hc. apply name_char_ascii.
      rewrite forallb_forall in Hname. now apply Hname. }
    unfold lower. rewrite Ha, map_map. split.
    + rewrite forallb_app. apply andb_true_iff. split; [reflexivity|].
      apply forallb_forall. intros x Hx. apply in_map_iff in Hx.
      destruct Hx as [c [<- Hc]]. apply name_char_slug.
      rewrite forallb_forall in Hname. now apply Hname.
    + rewrite length_app, length_map. reflexivity.
Qed.
End SlugName.

(** * How the script can end *)

Section FailureRules.
Context {U : Unicode} {O : OS}.
Variable E : Z -> Prop.
Variable X : exn -> Prop.

Lemma fails_bind {A B} (m : M A) (f : A -> M B) :
  fails_only m E X -> (forall a, fails_only (f a) E X) ->
  fails_only (bind m f) E X.
Proof.
  intros Hm Hf st. specialize (Hm st). unfold bind.
  destruct (m st) as [[a|c|e] st1]; simpl in *; [apply Hf | exact Hm | exact Hm].
Qed.

Lemma fails_ret {A} (a : A) : fails_only (ret a) E X.
Proof. intros st. exact I. Qed.

Lemma fails_print (text : str) : fails_only (print text) E X.
Proof. intros st. exact I. Qed.

Lemma fails_sys_exit {A} (c : Z) : E c -> fails_only (sys_exit (A := A) c) E X.
Proof. intros H st. exact H. Qed.

Lemma fails_which (name : str) : fails_only (which name) E X.
Proof. intros st. exact I. Qed.

Lemma fails_command_exists (name : str) : fails_only (command_exists name) E X.
Proof. intros st. exact I. Qed.

Lemma fails_path_exists (path : str) : fails_only (path_exists path) E X.
Proof. intros st. exact I. Qed.

Lemma fails_read_text (path : str) : fails_only (read_text path) E X.
Proof. intros st. exact I. Qed.

Lemma fails_mkdir (path : str) : fails_only (mkdir path) E X.
Proof. intros st. exact I. Qed.

Lemma fails_write_text (path content : str) :
  fails_only (write_text path content) E X.
Proof. intros st. exact I. Qed.

Lemma fails_py_int (digits : str) :
  (forall literal, X (ValueError literal)) -> fails_only (py_int digits) E X.
Proof. intros H st. unfold py_int. destruct (_ <=? _)%N; [exact I | apply H]. Qed.

Lemma fails_ensure_path : fails_only _ensure_path E X.
Proof. intros st. exact I. Qed.

Lemma fails_run_capture (cmd : str) (check : bool) :
  fails_only (run cmd true check) E X.
Proof.
  intros st. unfold run, subprocess_run, shell, bind, ret.
  cbn [fst snd andb]. now destruct (check && _).
Qed.

Lemma fails_run_quiet (cmd : str) : fails_only (run cmd false false) E X.
Proof. intros st. now rewrite run_quiet. Qed.

Lemma fails_run_checked (cmd : str) :
  (forall code, X (CalledProcessError code cmd)) ->
  fails_only (run cmd false true) E X.
Proof.
  intros H st. unfold run, subprocess_run, shell, bind, ret, raise.
  cbn [fst snd andb]. destruct (negb _); cbn; [apply H | exact I].
Qed.
End FailureRules.

(** One rule of [fails_only], chosen by the shape of the call. *)
Ltac fails_step :=
  lazymatch goal with
  | |- fails_only (bind _ _) _ _ => apply fails_bind; [|intros ?]
  | |- fails_only (ret _) _ _ => apply fails_ret
  | |- fails_only (print _) _ _ => apply fails_print
  | |- fails_only (sys_exit _) _ _ => apply fails_sys_exit; reflexivity
  | |- fails_only (which _) _ _ => apply fails_which
  | |- fails_only (command_exists _) _ _ => apply fails_command_exists
  | |- fails_only (path_exists _) _ _ => apply fails_path_exists
  | |- fails_only (read_text _) _ _ => apply fails_read_text
  | |- fails_only (mkdir _) _ _ => apply fails_mkdir
  | |- fails_only (write_text _ _) _ _ => apply fails_write_text
  | |- fails_only _ensure_path _ _ => apply fails_ensure_path
  | |- fails_only (run _ true _) _ _ => apply fails_run_capture
  | |- fails_only (run _ false false) _ _ => apply fails_run_quiet
  | |- fails_only (run _ false true) _ _ =>
      apply fails_run_checked; intros code;
      first [left; reflexivity | right; reflexivity]
  | |- fails_only (py_int _) _ _ => apply fails_py_int; intros literal; exact I
  | |- fails_only (write_file _ _) _ _ => unfold write_file
  | |- fails_only (if ?c then _ else _) _ _ => destruct c
  | |- fails_only (match ?c with Some _ => _ | None => _ end) _ _ => destruct c
  | |- fails_only (let (_, _) := ?p in _) _ _ => destruct p
  end.

Section ScriptFailures.
Context {U : Unicode} {O : OS}.

(** X18: however the script is called and whatever the environment
    answers, a [sys.exit] that ends the script passes status 1, and a
    [CalledProcessError] that stops it is that of one of the two
    installations of the Firebase CLI: no other command is run with
    [check]. Nothing is said of the other ways a run can end. *)
Theorem script_exit_status (argv : list str) (st : state) :
  (forall code, fst (script argv st) = SysExit code -> code = 1%Z)
  /\ (forall code cmd,
        fst (script argv st) = Raised (CalledProcessError code cmd) ->
        cmd = lit "npm install -g firebase-tools"
        \/ cmd = lit "brew install firebase-cli").
Proof.
  assert (H : fails_only (script argv) (fun code => code = 1%Z) checked_install).
  { unfold script, main, check_prerequisites, check_node_version,
      read_bundle_ids, setup_firebase, generate_boilerplate,
      generate_gemfile_lock.
    repeat fails_step. }
  specialize (H st). split.
  - intros code E. rewrite E in H. exact H.
  - intros code cmd E. rewrite E in H. exact H.
Qed.
End ScriptFailures.

Section FootprintRules.
Context {U : Unicode} {O : OS}.
Variable Q : event -> Prop.




End FootprintRules.


Section ScriptFootprint.
Context {U : Unicode} {O : OS}.

End ScriptFootprint.

(** * Examples and counterexamples *)

(** The end-to-end scenario of the specification. *)
Example extractor_end_to_end :
  parse_bundle_ids (U := ascii_only) example_doc
  = (Some (lit "com.x.mygame"), Some (lit "com.x.mygame")).
Proof. reflexivity. Qed.

Example slug_end_to_end :
  project_slug (U := ascii_only) (lit "My Game") = lit "hcg-my-game".
Proof. reflexivity. Qed.

(** The first entry of a key wins, and white space between the colon and
    the identifier may hold line feeds. *)
Example extractor_first_entry :
  parse_bundle_ids (U := ascii_only)
    (lit "iPhone: early " ++ marker ++ lit " {} iPhone:" ++ nl
     ++ lit "   a.b_9-tail iPhone: late Android:x")
  = (Some (lit "a.b_9"), Some (lit "x")).
Proof. reflexivity. Qed.

(** The document of the end-to-end scenario gives both identifiers, and
    a document without the marker gives none. *)
Lemma parse_bundle_ids_spec_witness :
  (exists ios android,
      parse_bundle_ids (U := ascii_only) example_doc = (Some ios, Some android)
      /\ first_key_match (U := ascii_only) (lit "iPhone")
           (nl ++ lit "  iPhone: com.x.mygame" ++ nl ++ lit "  Android: com.x.mygame")
           ios
      /\ first_key_match (U := ascii_only) (lit "Android")
           (nl ++ lit "  iPhone: com.x.mygame" ++ nl ++ lit "  Android: com.x.mygame")
           android)
  /\ parse_bundle_ids (U := ascii_only) (lit "productName: My Game") = (None, None).
Proof.
  split.
  - apply (proj1 (parse_bundle_ids_spec (U := ascii_only) example_doc) []).
    + reflexivity.
    + reflexivity.
    + exists (nl ++ lit "  "),
        (lit "iPhone: com.x.mygame" ++ nl ++ lit "  Android: com.x.mygame").
      split; [reflexivity|].
      exists (lit " "), (lit "com.x.mygame"), (nl ++ lit "  Android: com.x.mygame").
      split; [reflexivity|]. split; [repeat constructor|].
      split; [discriminate | repeat constructor].
    + exists (nl ++ lit "  iPhone: com.x.mygame" ++ nl ++ lit "  "),
        (lit "Android: com.x.mygame").
      split; [reflexivity|].
      exists (lit " "), (lit "com.x.mygame"), [].
      split; [reflexivity|]. split; [repeat constructor|].
      split; [discriminate | repeat constructor].
  - apply (proj2 (parse_bundle_ids_spec (U := ascii_only)
                    (lit "productName: My Game"))).
    reflexivity.
Defined.

(** With a home directory that holds a colon, every call of
    [_ensure_path] appends the expanded directory once more. *)
Lemma ensure_path_not_idempotent :
  let st := on_linux colon_home in
  env_PATH (snd (_ensure_path (snd (_ensure_path st))))
  <> env_PATH (snd (_ensure_path st)).
Proof. vm_compute. discriminate. Qed.

Lemma ensure_path_idempotent_witness :
  let st := on_linux old_node in
  _ensure_path (snd (_ensure_path st)) = _ensure_path st.
Proof.
  apply ensure_path_idempotent. intros h [= <-].
  apply no_sep_check. reflexivity.
Defined.

(** Without the Android key the Android config artifact is downloaded all
    the same. *)
Lemma android_download_not_skipped :
  let O := scripted_os Linux in
  let ids := parse_bundle_ids (U := ascii_only) doc_without_android in
  let st := setup_firebase (U := ascii_only) (lit "My Game") (lit "hcg-my-game")
              (fst ids) (snd ids) (on_linux no_node) in
  occurrences (lit "Android:") doc_without_android = 0
  /\ snd ids = None
  /\ In (Subprocess (download_android_cmd (lit "hcg-my-game")) false false)
        (trace (snd st)).
Proof.
  split; [reflexivity|]. split; [reflexivity|]. vm_compute. in_list.
Qed.

Lemma setup_firebase_without_android_witness :
  let O := scripted_os Linux in
  let st := on_linux no_node in
  exists ios evs,
    parse_bundle_ids (U := ascii_only) doc_without_android = (ios, None)
    /\ fst (setup_firebase (U := ascii_only) (lit "My Game") (lit "hcg-my-game")
              ios None st) = Return tt
    /\ trace (snd (setup_firebase (U := ascii_only) (lit "My Game")
                     (lit "hcg-my-game") ios None st))
       = trace st ++ evs
    /\ Forall (fun e => runs_command (lit "firebase apps:create android") e
                        = false) evs
    /\ In (Subprocess (download_android_cmd (lit "hcg-my-game")) false false) evs
    /\ In (Subprocess (download_ios_cmd (lit "hcg-my-game")) false false) evs
    /\ (forall id, ios = Some id ->
          In (Subprocess (register_ios_cmd id (lit "hcg-my-game")) false false) evs).
Proof.
  apply (setup_firebase_without_android (U := ascii_only) (O := scripted_os Linux)).
  reflexivity.
Defined.

(** Without [node] nothing is printed and nothing ends: the check returns
    and the whole script runs to its end. *)
Lemma absent_node_not_fatal :
  let O := scripted_os Linux in
  let st := on_linux no_node in
  os_which (world st) (env_PATH st) (lit "node") = None
  /\ check_node_version (U := ascii_only) st = (Return tt, st)
  /\ fst (script (U := ascii_only) example_argv st) = Return tt.
Proof. repeat split; vm_compute; reflexivity. Qed.

Lemma check_node_version_fatal_witness :
  let O := scripted_os Linux in
  let st := on_linux old_node in
  exists st',
    check_node_version (U := ascii_only) st = (SysExit 1, st')
    /\ check_prerequisites (U := ascii_only) st = (SysExit 1, st')
    /\ trace st'
       = trace st
         ++ [Subprocess (lit "node --version") true false;
             Print (lit "Node.js " ++ lit "v18.1.0"
                    ++ lit " is too old for Firebase CLI (need >= v20).");
             Print (lit "Error: Please upgrade Node.js to >= v20.")].
Proof.
  apply (check_node_version_fatal (U := ascii_only) (O := scripted_os Linux)
           (on_linux old_node) (node := lit "/usr/bin/node")
           (digits := lit "18")
           (result := {| returncode := 0; stdout := lit "v18.1.0" ++ nl |})
           (w := (old_node : @World (scripted_os Linux)))).
  - reflexivity.
  - discriminate.
  - reflexivity.
  - exists (lit ".1.0"). split; [reflexivity|].
    split; [discriminate|]. split; [repeat constructor | reflexivity].
  - apply N.leb_le. reflexivity.
  - reflexivity.
  - reflexivity.
Defined.

(** Without the settings document the script ends after the prerequisite
    checks. *)
Lemma read_bundle_ids_missing_witness :
  let O := scripted_os Linux in
  let st0 := on_linux no_settings in
  let st :=
    snd (check_prerequisites (U := ascii_only)
           (emit (Print (lit "Setting up CI/CD for My Game..." ++ nl)) st0)) in
  read_bundle_ids (U := ascii_only) st = (SysExit 1, emit (Print settings_error) st)
  /\ main (U := ascii_only) example_argv st0
     = (SysExit 1, emit (Print settings_error) st).
Proof.
  intros O st0 st.
  pose proof (read_bundle_ids_missing (U := ascii_only) (O := O) st eq_refl)
    as [Hread Hmain].
  split; [exact Hread|].
  apply (Hmain example_argv st0); [apply le_n | reflexivity].
Defined.

(** * The further properties at work *)

Lemma run_capture_trimmed_witness :
  trimmed (U := ascii_only) (lit "v18.1.0")
  /\ strip (U := ascii_only) (lit "v18.1.0") = lit "v18.1.0".
Proof.
  apply (@run_capture_trimmed ascii_only (scripted_os Linux)
           (lit "node --version") false (on_linux old_node) (lit "v18.1.0")).
  reflexivity.
Defined.

Lemma ensure_path_entries_witness :
  let st := on_linux old_node in
  let entries := path_entries (snd (_ensure_path st)) in
  entries = priority ++ remaining st ++ missing st
  /\ (forall p, In p priority ->
        count_occ (list_eq_dec N.eq_dec) entries p = 1)
  /\ (forall e, In e (extra Linux (Some (lit "/home/dev"))) -> In e entries)
  /\ (forall p, In p (path_entries st) -> In p entries).
Proof.
  apply (@ensure_path_entries (scripted_os Linux) (on_linux old_node)).
  intros h [= <-]. apply no_sep_check. reflexivity.
Defined.

Lemma ensure_path_prepends_witness :
  let st := @start (scripted_os Linux) (Some full_path) old_node in
  env_PATH (snd (_ensure_path st))
  = Some (lit "/opt/homebrew/bin:/opt/homebrew/sbin:" ++ full_path).
Proof.
  apply (@ensure_path_prepends (scripted_os Linux)
           (@start (scripted_os Linux) (Some full_path) old_node)).
  - assert (E : path_entries (@start (scripted_os Linux) (Some full_path) old_node)
                = [lit "/usr/bin"; lit "/usr/local/bin";
                   lit "/home/dev/.npm-global/bin"])
      by (vm_compute; reflexivity).
    rewrite E. intros p Hp. apply mem_false.
    destruct Hp as [<-|[<-|[<-|[]]]]; vm_compute; reflexivity.
  - assert (E : path_entries (@start (scripted_os Linux) (Some full_path) old_node)
                = [lit "/usr/bin"; lit "/usr/local/bin";
                   lit "/home/dev/.npm-global/bin"])
      by (vm_compute; reflexivity).
    rewrite E. intros e He.
    destruct He as [<-|[<-|[]]]; [right; left | right; right; left];
      vm_compute; reflexivity.
Defined.

(** With two markers the entries are those after the first one. *)
Lemma parse_after_first_marker_witness :
  let rest := lit " {}" ++ nl ++ marker ++ nl
              ++ lit "  Android: com.x.droid" ++ nl
              ++ lit "  iPhone: com.x.phone" ++ nl in
  extracted (U := ascii_only) (lit "iPhone") rest
    (fst (parse_bundle_ids (U := ascii_only) two_markers))
  /\ extracted (U := ascii_only) (lit "Android") rest
       (snd (parse_bundle_ids (U := ascii_only) two_markers)).
Proof.
  intros rest.
  apply (@parse_after_first_marker ascii_only two_markers (lit "x: 1" ++ nl) rest);
    reflexivity.
Defined.

Lemma parse_bundle_ids_wellformed_witness :
  lit "com.x.mygame" <> []
  /\ all_id (U := ascii_only) (lit "com.x.mygame")
  /\ Forall (shell_safe (U := ascii_only)) (lit "com.x.mygame").
Proof.
  apply (@parse_bundle_ids_wellformed ascii_only example_doc (lit "com.x.mygame")).
  left. reflexivity.
Defined.

Lemma check_node_version_silent_witness :
  let O := scripted_os Linux in
  let st := on_linux new_node in
  exists st' evs,
    check_node_version (U := ascii_only) st = (Return tt, st')
    /\ env_PATH st' = env_PATH st
    /\ trace st' = trace st ++ evs
    /\ Forall (fun e => e = Subprocess (lit "node --version") true false) evs.
Proof.
  apply (@check_node_version_silent ascii_only (scripted_os Linux)
           (on_linux new_node)).
  right. intros digits [tail [E [Hne [Hd Ht]]]].
  change (strip (U := ascii_only)
            (stdout (fst (@os_subprocess (scripted_os Linux)
                            (world (on_linux new_node))
                            (env_PATH (on_linux new_node))
                            (lit "node --version") true))))
    with (lit "v22.3.0") in E.
  cbn in E.
  destruct digits as [|d1 [|d2 [|d3 ds]]].
  - now contradiction Hne.
  - injection E as E1 E2. subst tail. discriminate Ht.
  - injection E as E1 E2 _. subst d1 d2. split; vm_compute; discriminate.
  - injection E as _ _ E3 _. subst d3.
    inversion Hd as [|? ? _ Hd1]. inversion Hd1 as [|? ? _ Hd2].
    inversion Hd2 as [|? ? Hd3 _]. discriminate Hd3.
Defined.

Lemma check_node_version_upgrade_witness :
  let O := scripted_os Linux in
  let st := on_linux old_node_brew in
  exists st',
    check_node_version (U := ascii_only) st = (Return tt, st')
    /\ trace st'
       = trace st
         ++ [Subprocess (lit "node --version") true false;
             Print (lit "Node.js " ++ lit "v18.1.0"
                    ++ lit " is too old for Firebase CLI (need >= v20).");
             Print (lit "Upgrading Node.js via Homebrew...");
             Subprocess (lit "brew upgrade node || brew install node")
                        false false]
    /\ exists rest, path_entries st' = priority ++ rest.
Proof.
  apply (@check_node_version_upgrade ascii_only (scripted_os Linux)
           (on_linux old_node_brew) (lit "/usr/bin/node")
           (lit "/usr/bin/brew") (lit "18")
           {| returncode := 0; stdout := lit "v18.1.0" ++ nl |}
           (old_node_brew : @World (scripted_os Linux))).
  - reflexivity.
  - discriminate.
  - reflexivity.
  - exists (lit ".1.0"). split; [reflexivity|].
    split; [discriminate|]. split; [repeat constructor | reflexivity].
  - apply N.leb_le. reflexivity.
  - reflexivity.
  - reflexivity.
Defined.

Lemma check_prerequisites_no_installer_witness :
  let O := scripted_os Linux in
  let st := on_linux bare in
  exists st',
    check_prerequisites (U := ascii_only) st = (SysExit 1, st')
    /\ world st' = world st
    /\ trace st'
       = trace st
         ++ [Print (lit "Error: Install Firebase CLI manually:");
             Print (lit "  npm install -g firebase-tools");
             Print (lit "  https://firebase.google.com/docs/cli")].
Proof.
  apply (@check_prerequisites_no_installer ascii_only (scripted_os Linux)
           (on_linux bare) (on_linux bare)).
  - reflexivity.
  - reflexivity.
  - reflexivity.
  - left. discriminate.
Defined.

Lemma check_prerequisites_install_failure_witness :
  let O := scripted_os Linux in
  let st := on_linux npm_fails in
  exists st',
    check_prerequisites (U := ascii_only) st
    = (Raised (CalledProcessError 1 (lit "npm install -g firebase-tools")), st')
    /\ trace st'
       = trace st
         ++ [Print (lit "Installing Firebase CLI via npm...");
             Subprocess (lit "npm install -g firebase-tools") false true].
Proof.
  apply (@check_prerequisites_install_failure ascii_only (scripted_os Linux)
           (on_linux npm_fails) (on_linux npm_fails) (lit "/usr/bin/npm")
           {| returncode := 1; stdout := [] |}
           (npm_fails : @World (scripted_os Linux))).
  - reflexivity.
  - reflexivity.
  - reflexivity.
  - reflexivity.
  - discriminate.
Defined.

Lemma check_prerequisites_installs_witness :
  let O := scripted_os Darwin in
  let st := @start O usr_bin mac_brew in
  exists st',
    check_prerequisites (U := ascii_only) st = (Return tt, st')
    /\ trace st'
       = trace st
         ++ [Print (lit "Installing Firebase CLI via Homebrew...");
             Subprocess (lit "brew install firebase-cli") false true;
             Subprocess (lit "firebase projects:list") true false].
Proof.
  apply (@check_prerequisites_installs ascii_only (scripted_os Darwin)
           (@start (scripted_os Darwin) usr_bin mac_brew)
           (@start (scripted_os Darwin) usr_bin mac_brew)
           (lit "Installing Firebase CLI via Homebrew...")
           (lit "brew install firebase-cli")
           {| returncode := 0; stdout := [] |}
           (mac_brew : @World (scripted_os Darwin))).
  - reflexivity.
  - reflexivity.
  - right. split; [reflexivity|]. split; [reflexivity|].
    split; [discriminate|]. split; reflexivity.
  - reflexivity.
  - reflexivity.
Defined.

Lemma check_prerequisites_login_probe_witness :
  let O := scripted_os Linux in
  let st := on_linux no_settings in
  exists st',
    check_prerequisites (U := ascii_only) st = (Return tt, st')
    /\ env_PATH st' = env_PATH st
    /\ trace st'
       = trace st ++ [Subprocess (lit "firebase projects:list") true false].
Proof.
  apply (@check_prerequisites_login_probe ascii_only (scripted_os Linux)
           (on_linux no_settings) (on_linux no_settings)
           (lit "/usr/bin/firebase")); reflexivity.
Defined.

Lemma read_bundle_ids_found_witness :
  let O := scripted_os Linux in
  let st := on_linux no_node in
  exists st',
    read_bundle_ids (U := ascii_only) st
    = (Return (Some (lit "com.x.mygame"), None), st')
    /\ world st' = world st /\ env_PATH st' = env_PATH st
    /\ trace st'
       = trace st ++ missing_id_events (Some (lit "com.x.mygame")) None.
Proof.
  apply (@read_bundle_ids_found ascii_only (scripted_os Linux)
           (on_linux no_node)).
  reflexivity.
Defined.

Lemma script_usage_witness :
  let O := scripted_os Linux in
  let st := on_linux bare in
  exists st',
    script (U := ascii_only) [lit "setup.py"] st = (SysExit 1, st')
    /\ world st' = world st
    /\ trace st'
       = trace st
         ++ [Print (lit "Usage: python setup.py <GameName>");
             Print (lit "Run from the root of your Unity project.")].
Proof.
  apply (@script_usage ascii_only (scripted_os Linux)
           [lit "setup.py"] (on_linux bare)).
  apply le_n.
Defined.


Lemma project_slug_valid_witness :
  ~ In 32%N (project_slug (U := ascii_only) (lit "My Game 2"))
  /\ forallb slug_char (project_slug (U := ascii_only) (lit "My Game 2")) = true
  /\ List.length (project_slug (U := ascii_only) (lit "My Game 2")) = 13.
Proof.
  destruct (@project_slug_valid ascii_only (lit "My Game 2")) as [Hspace Hname].
  split; [exact Hspace|]. apply Hname. reflexivity.
Defined.

Lemma zeros_version_text :
  version_text (U := ascii_only) (strip (U := ascii_only) (lit "v" ++ zeros)) zeros.
Proof.
  assert (Hz : forall c, In c zeros -> c = 48%N)
    by (intros c H; now apply repeat_spec in H).
  rewrite trimmed_strip.
  - exists []. split; [now rewrite app_nil_r|]. split; [discriminate|].
    split; [|exact I]. apply Forall_forall. intros c H.
    now rewrite (Hz c H).
  - split.
    + intros c t E. injection E as <- _. reflexivity.
    + intros c t E.
      assert (Hin : In c (lit "v" ++ zeros))
        by (rewrite E; apply in_or_app; right; now left).
      destruct Hin as [<-|Hin]; [reflexivity|]. now rewrite (Hz c Hin).
Qed.

Lemma check_node_version_overlong_witness :
  let O := scripted_os Linux in
  let st := on_linux padded_node in
  exists st',
    check_node_version (U := ascii_only) st = (Raised (ValueError zeros), st')
    /\ check_prerequisites (U := ascii_only) st = (Raised (ValueError zeros), st')
    /\ world st' = padded_node
    /\ trace st' = trace st ++ [Subprocess (lit "node --version") true false].
Proof.
  apply (@check_node_version_overlong ascii_only (scripted_os Linux)
           (on_linux padded_node) (lit "/usr/bin/node") zeros
           {| returncode := 0; stdout := lit "v" ++ zeros |}
           (padded_node : @World (scripted_os Linux))).
  - reflexivity.
  - discriminate.
  - reflexivity.
  - exact zeros_version_text.
  - unfold zeros. rewrite repeat_length, Nat2N.inj_succ, N2Nat.id. reflexivity.
Defined.

Lemma script_exit_status_witness :
  let O := scripted_os Linux in
  let st := on_linux npm_fails in
  fst (script (U := ascii_only) example_argv st)
  = Raised (CalledProcessError 1 (lit "npm install -g firebase-tools"))
  /\ (lit "npm install -g firebase-tools" = lit "npm install -g firebase-tools"
      \/ lit "npm install -g firebase-tools" = lit "brew install firebase-cli").
Proof.
  split; [vm_compute; reflexivity|].
  apply (proj2 (@script_exit_status ascii_only (scripted_os Linux) example_argv
                  (on_linux npm_fails)) 1%Z).
  vm_compute. reflexivity.
Defined.
